(** * HederaNftService: a shallow embedding of the NFT demo on Hedera

    The repository is one service class ([HederaNftService]) that drives the
    Hedera SDK, and one script ([index.js], function [main]) that chains the
    service's methods.  Every method is a sequence of awaited SDK calls inside
    a try/catch that logs and rethrows.

    The embedding keeps that shape: a state-and-exception monad [M] whose state
    holds the service object ([this]), the store of account objects and the
    ledger behind the SDK; every SDK call is answered by the ledger and is
    recorded, with its answer, in the trace of the invocation.  Console output
    is left out; an argument of a [console.log] whose evaluation can raise
    (a [.toString()] on a possibly null value) is kept. *)

From stdpp Require Import base option list strings gmap pretty.
From Stdlib Require Import ZArith Lia.

Open Scope Z_scope.

#[local] Set Warnings "-register-all".

(** ** JavaScript values and the built-ins the service uses *)

(** The values a caller can pass where the code inspects the dynamic type
    ([Array.isArray], [typeof]).  Numbers are restricted to integers. *)
Inductive jsval : Type :=
| JUndefined
| JNull
| JBool (b : bool)
| JNum (n : Z)
| JStr (s : string)
| JArr (items : list jsval)
| JObj (props : list (string * jsval)).

(** A thrown value: an [Error] object, with its constructor name and its
    [message], a string, as the errors of the SDK and of the runtime are. *)
Record Error : Type := mkError { error_name : string; message : string }.

Definition TypeError (msg : string) : Error := mkError "TypeError" msg.
Definition ReferenceError (msg : string) : Error := mkError "ReferenceError" msg.

(** [haystack.includes(needle)] *)
Definition includes (haystack needle : string) : bool :=
  match String.index 0 needle haystack with
  | Some _ => true
  | None => false
  end.

Module JSON.

Definition dquote : string := String (Ascii.ascii_of_nat 34) "".
Definition backslash : string := String (Ascii.ascii_of_nat 92) "".

Definition hex_digit (n : nat) : string :=
  String (Ascii.ascii_of_nat (if Nat.ltb n 10 then 48 + n else 87 + n)) "".

Definition escape_char (c : Ascii.ascii) : string :=
  let n := Ascii.nat_of_ascii c in
  if Nat.eqb n 34 then backslash +:+ dquote
  else if Nat.eqb n 92 then backslash +:+ backslash
  else if Nat.eqb n 8 then backslash +:+ "b"
  else if Nat.eqb n 12 then backslash +:+ "f"
  else if Nat.eqb n 10 then backslash +:+ "n"
  else if Nat.eqb n 13 then backslash +:+ "r"
  else if Nat.eqb n 9 then backslash +:+ "t"
  else if Nat.ltb n 32 then
    backslash +:+ "u00" +:+ hex_digit (Nat.div n 16) +:+ hex_digit (Nat.modulo n 16)
  else String c "".

Fixpoint escape (s : string) : string :=
  match s with
  | EmptyString => ""
  | String c rest => escape_char c +:+ escape rest
  end.

(** QuoteJSONString of the language specification. *)
Definition quote (s : string) : string := dquote +:+ escape s +:+ dquote.

Fixpoint join (sep : string) (parts : list string) : string :=
  match parts with
  | [] => ""
  | [p] => p
  | p :: rest => p +:+ sep +:+ join sep rest
  end.

(** [JSON.stringify(v)]; [None] is the result [undefined].  Inside an array
    [undefined] is written [null]; a property whose value is [undefined] is
    left out of an object. *)
Fixpoint stringify (v : jsval) : option string :=
  match v with
  | JUndefined => None
  | JNull => Some "null"
  | JBool true => Some "true"
  | JBool false => Some "false"
  | JNum n => Some (pretty n)
  | JStr s => Some (quote s)
  | JArr items =>
      let fix elems (l : list jsval) : list string :=
        match l with
        | [] => []
        | x :: l' => default "null" (stringify x) :: elems l'
        end in
      Some ("[" +:+ join "," (elems items) +:+ "]")
  | JObj props =>
      let fix members (l : list (string * jsval)) : list string :=
        match l with
        | [] => []
        | (k, x) :: l' =>
            match stringify x with
            | Some s => (quote k +:+ ":" +:+ s) :: members l'
            | None => members l'
            end
        end in
      Some ("{" +:+ join "," (members props) +:+ "}")
  end.

End JSON.

(** A Node [Buffer], by the string it was made from. *)
Variant Buffer : Type := Buffer_from (s : string).

(** ** The SDK's value objects

    Identifiers, statuses and keys are opaque objects of the SDK; the service
    only stores them, passes them back and calls [toString()] on them. *)

Variant AccountId : Type := mkAccountId (repr : string).
Variant TokenId : Type := mkTokenId (repr : string).
Variant Status : Type := mkStatus (repr : string).
Variant PublicKey : Type := mkPublicKey (repr : string).
Variant Timestamp : Type := mkTimestamp (repr : string).
Variant Hbar : Type := mkHbar (amount : Z).
Variant Client : Type := mkClient (handle : nat).
Variant TransactionResponse : Type := mkTransactionResponse (transactionId : nat).
Variant TokenType : Type := NonFungibleUnique | FungibleCommon.
Variant TokenSupplyType : Type := Finite | Infinite.

Record PrivateKey : Type := mkPrivateKey { key_bytes : string; publicKey : PublicKey }.

(** What [x.toString()] gives; [x?.toString()] is [toString <$> x]. *)
Class ToString (A : Type) : Type := toString : A -> string.
#[global] Instance AccountId_toString : ToString AccountId := fun '(mkAccountId s) => s.
#[global] Instance TokenId_toString : ToString TokenId := fun '(mkTokenId s) => s.
#[global] Instance Status_toString : ToString Status := fun '(mkStatus s) => s.
#[global] Instance Long_toString : ToString Z := fun n => pretty n.
#[global] Instance Hbar_toString : ToString Hbar := fun '(mkHbar n) => pretty n +:+ " hbar".
#[global] Instance string_toString : ToString string := fun s => s.
#[global] Instance TokenType_toString : ToString TokenType :=
  fun t => match t with
           | NonFungibleUnique => "NON_FUNGIBLE_UNIQUE"
           | FungibleCommon => "FUNGIBLE_COMMON"
           end.

Module Receipt.
(** [TransactionReceipt]: the fields the service reads. *)
Record t : Type := mk {
  accountId : option AccountId;
  tokenId : option TokenId;
  status : option Status;
  serials : option (list Z)
}.
End Receipt.

Module TokenInfo.
(** The answer of a [TokenInfoQuery]. *)
Record t : Type := mk {
  tokenId : option TokenId;
  name : string;
  symbol : string;
  tokenType : option TokenType;
  decimals : Z;
  totalSupply : option Z;
  maxSupply : option Z;
  supplyType : option TokenSupplyType;
  treasuryAccountId : option AccountId;
  supplyKey : option PublicKey;
  creationTime : option Timestamp
}.
End TokenInfo.

Module AccountBalance.
(** The answer of an [AccountBalanceQuery]; [tokens] in iteration order. *)
Record t : Type := mk {
  hbars : option Hbar;
  tokens : option (list (TokenId * Z))
}.
End AccountBalance.

(** The argument of [AccountBalanceQuery.setAccountId]: the caller's string,
    or the [accountId] field of the caller's account object. *)
Variant AccountRef : Type :=
| RefString (s : string)
| RefId (id : option AccountId).

(** A transaction as the builder calls leave it. *)
Inductive Transaction : Type :=
| AccountCreateTransaction (key : PublicKey) (initialBalance : Hbar)
| TokenCreateTransaction
    (tokenName tokenSymbol : string) (tokenType : TokenType)
    (decimals initialSupply : Z) (treasuryAccountId : option AccountId)
    (supplyType : TokenSupplyType) (maxSupply : Z) (supplyKey : PrivateKey)
| TokenMintTransaction (tokenId : option TokenId) (metadata : list Buffer)
| TokenAssociateTransaction (accountId : option AccountId) (tokenIds : list (option TokenId))
| TransferTransaction
    (tokenId : option TokenId) (serialNumber : option Z)
    (sender receiver : option AccountId).

(** ** SDK calls

    Each call that reaches into the SDK and can throw.  The fluent setters of
    a transaction only fill its fields and return the transaction itself, as
    do [freezeWith] and [sign]; they are recorded with the transaction they
    act on. *)
Inductive sdk_op : Type :=
| ClientForTestnet
| ClientSetOperator (c : Client) (operatorId operatorKey : option string)
| ClientSetDefaultMaxTransactionFee (c : Client) (fee : Hbar)
| ClientSetDefaultMaxQueryPayment (c : Client) (payment : Hbar)
| ClientClose (c : Client)
| PrivateKeyGenerateED25519
| FreezeWith (tx : Transaction) (c : Client)
| Sign (tx : Transaction) (key : PrivateKey)
| Execute (tx : Transaction) (c : Client)
| GetReceipt (r : TransactionResponse) (c : Client)
| TokenInfoQuery (tokenId : option TokenId) (c : Client)
| AccountBalanceQuery (accountId : AccountRef) (c : Client).

(** The type of the answer of each call. *)
Definition resp (op : sdk_op) : Type :=
  match op with
  | ClientForTestnet => Client
  | PrivateKeyGenerateED25519 => PrivateKey
  | Execute _ _ => TransactionResponse
  | GetReceipt _ _ => Receipt.t
  | TokenInfoQuery _ _ => TokenInfo.t
  | AccountBalanceQuery _ _ => AccountBalance.t
  | _ => unit
  end.

(** One SDK call of a run and how it ended: the error thrown, or the answer. *)
Record event : Type := Ev { ev_op : sdk_op; ev_res : Error + resp ev_op }.

Definition ev_error (ev : event) : option Error :=
  match ev_res ev with
  | inl e => Some e
  | inr _ => None
  end.

Definition ev_ok (ev : event) : Prop := ev_error ev = None.

(** The answers of the SDK, forgetting which request each one answered. *)
Variant sdk_value : Type :=
| VUnit
| VClient (c : Client)
| VKey (k : PrivateKey)
| VResponse (r : TransactionResponse)
| VReceipt (r : Receipt.t)
| VTokenInfo (i : TokenInfo.t)
| VBalance (b : AccountBalance.t).

Definition to_value (op : sdk_op) : resp op -> sdk_value :=
  match op with
  | ClientForTestnet => VClient
  | PrivateKeyGenerateED25519 => VKey
  | Execute _ _ => VResponse
  | GetReceipt _ _ => VReceipt
  | TokenInfoQuery _ _ => VTokenInfo
  | AccountBalanceQuery _ _ => VBalance
  | _ => fun _ => VUnit
  end.

Definition answer (ev : event) : Error + sdk_value :=
  match ev_res ev with
  | inl e => inl e
  | inr v => inr (to_value (ev_op ev) v)
  end.

(** The kind of a call, forgetting its arguments. *)
Variant op_kind : Type :=
| KForTestnet | KSetOperator | KSetMaxFee | KSetMaxPayment | KClose
| KGenerateKey
| KFreeze | KSign | KExecute | KGetReceipt
| KTokenInfoQuery | KBalanceQuery.

Variant tx_kind : Type :=
| KAccountCreate | KTokenCreate | KTokenMint | KTokenAssociate | KTransfer.

Definition kind_of_tx (tx : Transaction) : tx_kind :=
  match tx with
  | AccountCreateTransaction _ _ => KAccountCreate
  | TokenCreateTransaction _ _ _ _ _ _ _ _ _ => KTokenCreate
  | TokenMintTransaction _ _ => KTokenMint
  | TokenAssociateTransaction _ _ => KTokenAssociate
  | TransferTransaction _ _ _ _ => KTransfer
  end.

(** The kind of a call and, for a call on a transaction, of the transaction. *)
Definition kind (op : sdk_op) : op_kind * option tx_kind :=
  match op with
  | ClientForTestnet => (KForTestnet, None)
  | ClientSetOperator _ _ _ => (KSetOperator, None)
  | ClientSetDefaultMaxTransactionFee _ _ => (KSetMaxFee, None)
  | ClientSetDefaultMaxQueryPayment _ _ => (KSetMaxPayment, None)
  | ClientClose _ => (KClose, None)
  | PrivateKeyGenerateED25519 => (KGenerateKey, None)
  | FreezeWith tx _ => (KFreeze, Some (kind_of_tx tx))
  | Sign tx _ => (KSign, Some (kind_of_tx tx))
  | Execute tx _ => (KExecute, Some (kind_of_tx tx))
  | GetReceipt _ _ => (KGetReceipt, None)
  | TokenInfoQuery _ _ => (KTokenInfoQuery, None)
  | AccountBalanceQuery _ _ => (KBalanceQuery, None)
  end.

Definition kinds (t : list event) : list (op_kind * option tx_kind) :=
  map (fun ev => kind (ev_op ev)) t.

(** ** The records of the service *)

(** A reference to an account object in the store. *)
Definition loc : Type := nat.

Module Account.
(** What [createAccount] returns. *)
Record t : Type := mk {
  accountId : option AccountId;
  privateKey : PrivateKey;
  publicKey : PublicKey;
  status : option Status;
  balance : Z
}.
End Account.

Module TokenConfig.
(** The optional [tokenConfig] argument; [None] is an absent property. *)
Record t : Type := mk {
  name : option string;
  symbol : option string;
  maxSupply : option Z
}.
Definition empty : t := mk None None None.
End TokenConfig.

Module Token.
(** What [createNFTToken] returns; [treasuryAccount] is a reference to the
    caller's account object. *)
Record t : Type := mk {
  tokenId : option TokenId;
  status : option Status;
  name : string;
  symbol : string;
  tokenType : option TokenType;
  decimals : Z;
  totalSupply : option Z;
  maxSupply : option Z;
  supplyType : option TokenSupplyType;
  treasuryAccountId : option AccountId;
  supplyKey : option PublicKey;
  creationTime : option Timestamp;
  treasuryAccount : loc
}.
End Token.

Module MintResult.
Record t : Type := mk {
  serials : option (list Z);
  status : option Status;
  tokenId : option TokenId;
  count : Z;
  mintedAt : string
}.
End MintResult.

Module TokenBasicInfo.
Record t : Type := mk {
  tokenId : option string;
  name : string;
  symbol : string;
  type : option string;
  totalSupply : option string;
  maxSupply : option string;
  treasury : option string
}.
End TokenBasicInfo.

Module Association.
Record t : Type := mk {
  status : option Status;
  accountId : option AccountId;
  tokenId : option TokenId;
  associatedAt : string
}.
End Association.

Module Balance.
(** What [getAccountBalance] returns; [tokens] is an object used as a map. *)
Record t : Type := mk {
  accountId : option string;
  hbarBalance : option string;
  tokens : gmap string string
}.
End Balance.

Module Transfer.
Record t : Type := mk {
  status : option Status;
  tokenId : option TokenId;
  serialNumber : option Z;
  fromAccount : option string;
  toAccount : option string;
  transferredAt : string
}.
End Transfer.

Module TransferCheck.
Record balances : Type := mkBalances { sender : Balance.t; receiver : Balance.t }.
Record summary_t : Type := mkSummary {
  tokenId : option string;
  serialNumber : option Z;
  from : option string;
  to : option string;
  success : bool
}.
(** What [transferNFTWithBalanceCheck] returns. *)
Record t : Type := mk {
  transferResult : Transfer.t;
  before : balances;
  after : balances;
  summary : summary_t
}.
End TransferCheck.

Module Collection.
Record summary_t : Type := mkSummary {
  accountId : option string;
  tokenId : option string;
  nftCount : Z;
  serials : list string
}.
(** What [createCompleteNFTCollection] returns. *)
Record t : Type := mk {
  account : loc;
  tokenData : Token.t;
  mintResult : option MintResult.t;
  summary : summary_t
}.
End Collection.

Module Service.
(** The fields of a [HederaNftService] object. *)
Record t : Type := mk {
  operatorId : option string;
  operatorKey : option string;
  client : option Client
}.
Definition blank : t := mk None None None.
Definition with_client (c : option Client) (srv : t) : t :=
  mk (operatorId srv) (operatorKey srv) c.
End Service.

Module CollectionInfo.
(** The shape of [COLLECTION_INFO] of [src/data/ipfs-cid.js]. *)
Record t : Type := mk {
  name : string;
  symbol : string;
  maxSupply : Z;
  totalCIDs : Z
}.
End CollectionInfo.

Module MainResult.
(** The record [main] returns at the end of its try block. *)
Record t : Type := mk {
  university : loc;
  bob : loc;
  token : Token.t;
  mintResult : MintResult.t;
  transferResult : TransferCheck.t
}.
End MainResult.

(** The state a method runs in: the service object, the store of account
    objects, and the ledger behind the SDK. *)
Record state (W : Type) : Type := mkState {
  this : Service.t;
  heap : list Account.t;
  world : W
}.
Arguments mkState {W} this heap world.
Arguments this {W} s.
Arguments heap {W} s.
Arguments world {W} s.

(** ** A scripted ledger, for running the service

    The state of the ledger is the list of the outcomes still to come
    ([Some e]: the next call throws [e]; [None], or an exhausted script: it
    succeeds) and the number of calls answered so far.  A successful call is
    answered from that number alone where the answer is a fresh object. *)
Definition demo_answer (op : sdk_op) (n : nat) : resp op :=
  match op with
  | ClientForTestnet => mkClient n
  | PrivateKeyGenerateED25519 =>
      mkPrivateKey ("302e-" +:+ pretty n) (mkPublicKey ("302a-" +:+ pretty n))
  | Execute _ _ => mkTransactionResponse n
  | GetReceipt _ _ =>
      Receipt.mk (Some (mkAccountId ("0.0." +:+ pretty n)))
                 (Some (mkTokenId ("0.0." +:+ pretty n)))
                 (Some (mkStatus "SUCCESS"))
                 (Some [1; 2; 3])
  | TokenInfoQuery tokenId _ =>
      TokenInfo.mk tokenId "diploma" "GRAD" (Some NonFungibleUnique) 0 (Some 0)
                   (Some 250) (Some Finite) (Some (mkAccountId "0.0.1001")) None None
  | AccountBalanceQuery _ _ =>
      AccountBalance.mk (Some (mkHbar 100)) (Some [(mkTokenId "0.0.2002", 3)])
  | _ => tt
  end.

Definition script : Type := list (option Error) * nat.

Definition scripted_sdk (op : sdk_op) (w : script) : (Error + resp op) * script :=
  match w with
  | (Some e :: rest, n) => (inl e, (rest, S n))
  | (None :: rest, n) => (inr (demo_answer op n), (rest, S n))
  | ([], n) => (inr (demo_answer op n), ([], S n))
  end.

Definition scripted_now (w : script) : string := "2025-01-01T00:00:00.000Z".

(** The ledger on which every call succeeds. *)
Definition all_succeed : script := ([], 0%nat).

(** A service constructed with both credentials, no client yet, no account. *)
Definition demo_service : Service.t := Service.mk (Some "0.0.2") (Some "302e") None.

Definition demo_state (w : script) : state script := mkState demo_service [] w.

(** Two accounts. *)
Definition demo_alice : Account.t :=
  Account.mk (Some (mkAccountId "0.0.1001")) (mkPrivateKey "k1" (mkPublicKey "p1"))
             (mkPublicKey "p1") (Some (mkStatus "SUCCESS")) 500.
Definition demo_bob : Account.t :=
  Account.mk (Some (mkAccountId "0.0.1002")) (mkPrivateKey "k2" (mkPublicKey "p2"))
             (mkPublicKey "p2") (Some (mkStatus "SUCCESS")) 150.


(** The same two accounts, and no client yet. *)
Definition demo_state_accounts (w : script) : state script :=
  mkState demo_service [demo_alice; demo_bob] w.

Definition demo_env : gmap string string :=
  {[ "OPERATOR_ID" := "0.0.2"; "OPERATOR_KEY" := "302e" ]}.

(** A token whose treasury is the first of the two accounts. *)
Definition demo_token : Token.t :=
  Token.mk (Some (mkTokenId "0.0.2002")) (Some (mkStatus "SUCCESS")) "diploma" "GRAD"
    (Some NonFungibleUnique) 0 (Some 0) (Some 250) (Some Finite)
    (Some (mkAccountId "0.0.1001")) None None 0%nat.

Definition demo_collection : CollectionInfo.t := CollectionInfo.mk "diploma" "GRAD" 250 3.

Definition demo_cids : jsval :=
  JArr [ JStr "ipfs://bafy-1/metadata.json";
         JStr "ipfs://bafy-2/metadata.json";
         JStr "ipfs://bafy-3/metadata.json" ].


Definition network_error : Error := mkError "Error" "max attempts of 10 was reached".

(** Scripts: the sixth call fails; the fifth call fails as associated already. *)
Definition sixth_call_fails : script :=
  ([None; None; None; None; None; Some network_error], 0%nat).


(** ** The monad of the asynchronous methods *)

Inductive outcome (A : Type) : Type :=
| Ok (a : A)
| Throw (e : Error).
Arguments Ok {A} a.
Arguments Throw {A} e.

Definition thrown {A} (o : outcome A) : option Error :=
  match o with
  | Ok _ => None
  | Throw e => Some e
  end.

Section Ledger.

(** The ledger behind the SDK: it answers each call, with an error or with a
    value of the call's answer type, and moves on; [now] is the local clock
    ([new Date().toISOString()]). *)
Context {W : Type}.
Variable sdk : forall op : sdk_op, W -> (Error + resp op) * W.
Variable now : W -> string.

(** A computation: from a state to its outcome, the state it leaves and the
    SDK calls it made, in order. *)
Definition M (A : Type) : Type := state W -> outcome A * state W * list event.

(** The three components of a run. *)
Definition outcome_of {A} (r : outcome A * state W * list event) : outcome A :=
  let '(o, _, _) := r in o.
Definition state_of {A} (r : outcome A * state W * list event) : state W :=
  let '(_, s, _) := r in s.
Definition trace_of {A} (r : outcome A * state W * list event) : list event :=
  let '(_, _, t) := r in t.

Definition ret {A} (a : A) : M A := fun s => (Ok a, s, []).

Definition throw {A} (e : Error) : M A := fun s => (Throw e, s, []).

Definition bind {A B} (m : M A) (f : A -> M B) : M B :=
  fun s =>
    match m s with
    | (Ok a, s1, t1) => let '(o, s2, t2) := f a s1 in (o, s2, t1 ++ t2)
    | (Throw e, s1, t1) => (Throw e, s1, t1)
    end.

(** [try { m } catch (error) { handler error }] *)
Definition try_catch {A} (m : M A) (handler : Error -> M A) : M A :=
  fun s =>
    match m s with
    | (Ok a, s1, t1) => (Ok a, s1, t1)
    | (Throw e, s1, t1) => let '(o, s2, t2) := handler e s1 in (o, s2, t1 ++ t2)
    end.

(** [try { m } finally { fin }]: [fin] always runs; what it throws replaces
    the outcome of [m]. *)
Definition try_finally {A} (m : M A) (fin : M unit) : M A :=
  fun s =>
    let '(o, s1, t1) := m s in
    match fin s1 with
    | (Ok _, s2, t2) => (o, s2, t1 ++ t2)
    | (Throw e, s2, t2) => (Throw e, s2, t1 ++ t2)
    end.

(** The catch block of every method: log the message, throw the same error. *)
Definition rethrow {A} (m : M A) : M A := try_catch m (fun error => throw error).

(** One awaited SDK call. *)
Definition call (op : sdk_op) : M (resp op) :=
  fun s =>
    let '(r, w) := sdk op (world s) in
    let s' := mkState (this s) (heap s) w in
    match r with
    | inl e => (Throw e, s', [Ev op (inl e)])
    | inr v => (Ok v, s', [Ev op (inr v)])
    end.

Definition get_this : M Service.t := fun s => (Ok (this s), s, []).

Definition set_this (srv : Service.t) : M unit :=
  fun s => (Ok tt, mkState srv (heap s) (world s), []).

(** [this.client = c] *)
Definition set_client (c : option Client) : M unit :=
  fun s => (Ok tt, mkState (Service.with_client c (this s)) (heap s) (world s), []).

(** A new account object. *)
Definition alloc (a : Account.t) : M loc :=
  fun s => (Ok (length (heap s)), mkState (this s) (heap s ++ [a]) (world s), []).

(** [account.field]; on a reference that names no object the read raises, as
    a property read on [undefined] does. *)
Definition field {A} (account : loc) (proj : Account.t -> A) : M A :=
  fun s =>
    match heap s !! account with
    | Some a => (Ok (proj a), s, [])
    | None => (Throw (TypeError "Cannot read properties of undefined"), s, [])
    end.

(** [new Date().toISOString()] *)
Definition date_now : M string := fun s => (Ok (now (world s)), s, []).

(** A member access [x.member] on a value that may be null or undefined. *)
Definition strict {A} (x : option A) : M A :=
  match x with
  | Some a => ret a
  | None => throw (TypeError "Cannot read properties of undefined")
  end.

(** A pure step that may raise. *)
Definition lift {A} (r : Error + A) : M A :=
  match r with
  | inl e => throw e
  | inr a => ret a
  end.

Declare Scope js_scope.
Notation "x <- c1 ;; c2" := (bind c1 (fun x => c2))
  (at level 100, c1 at next level, c2 at level 200, right associativity) : js_scope.
Notation "c1 ;; c2" := (bind c1 (fun _ => c2))
  (at level 100, c2 at level 200, right associativity) : js_scope.
Local Open Scope js_scope.

(** ** HederaNftService *)

(** [!x] on a string that may be undefined. *)
Definition falsy (x : option string) : bool :=
  match x with
  | None => true
  | Some "" => true
  | Some _ => false
  end.

(** [constructor()], on the fresh object [this]; [env] is [process.env]. *)
Definition constructor (env : gmap string string) : M unit :=
  set_this (Service.mk (env !! "OPERATOR_ID") (env !! "OPERATOR_KEY") None) ;;
  srv <- get_this ;;
  if falsy (Service.operatorKey srv) || falsy (Service.operatorId srv)
  then throw (mkError "Error" "Please set OPERATOR_ID and OPERATOR_KEY in your .env file")
  else ret tt.

(** [getClient()]; the stored handle is returned, which in the first branch
    is the handle just stored. *)
Definition getClient : M Client :=
  srv <- get_this ;;
  match Service.client srv with
  | None =>
      c <- call ClientForTestnet ;;
      set_client (Some c) ;;
      call (ClientSetOperator c (Service.operatorId srv) (Service.operatorKey srv)) ;;
      call (ClientSetDefaultMaxTransactionFee c (mkHbar 50)) ;;
      call (ClientSetDefaultMaxQueryPayment c (mkHbar 30)) ;;
      ret c
  | Some c => ret c
  end.

(** [close()] *)
Definition close : M unit :=
  srv <- get_this ;;
  match Service.client srv with
  | Some c =>
      call (ClientClose c) ;;
      set_client None
  | None => ret tt
  end.

(** [createAccount(initialBalance = 100)] *)
Definition createAccount (initialBalance : option Z) : M loc :=
  let initialBalance := default 100 initialBalance in
  rethrow (
    client <- getClient ;;
    privateKey <- call PrivateKeyGenerateED25519 ;;
    let publicKey := publicKey privateKey in
    transaction <-
      call (Execute (AccountCreateTransaction publicKey (mkHbar initialBalance)) client) ;;
    receipt <- call (GetReceipt transaction client) ;;
    let accountId := Receipt.accountId receipt in
    let status := Receipt.status receipt in
    alloc (Account.mk accountId privateKey publicKey status initialBalance)).

(** [createNFTToken(treasuryAccount, tokenConfig = {})] *)
Definition createNFTToken (treasuryAccount : loc) (tokenConfig : option TokenConfig.t)
  : M Token.t :=
  let tokenConfig := default TokenConfig.empty tokenConfig in
  rethrow (
    client <- getClient ;;
    let config_name := default "diploma" (TokenConfig.name tokenConfig) in
    let config_symbol := default "GRAD" (TokenConfig.symbol tokenConfig) in
    let config_maxSupply := default 250 (TokenConfig.maxSupply tokenConfig) in
    treasuryId <- field treasuryAccount Account.accountId ;;
    supplyKey <- field treasuryAccount Account.privateKey ;;
    let transaction :=
      TokenCreateTransaction config_name config_symbol NonFungibleUnique 0 0
        treasuryId Finite config_maxSupply supplyKey in
    call (FreezeWith transaction client) ;;
    signKey <- field treasuryAccount Account.privateKey ;;
    call (Sign transaction signKey) ;;
    response <- call (Execute transaction client) ;;
    receipt <- call (GetReceipt response client) ;;
    let tokenId := Receipt.tokenId receipt in
    let status := Receipt.status receipt in
    tokenInfo <- call (TokenInfoQuery tokenId client) ;;
    ret (Token.mk tokenId status
           (TokenInfo.name tokenInfo) (TokenInfo.symbol tokenInfo)
           (TokenInfo.tokenType tokenInfo) (TokenInfo.decimals tokenInfo)
           (TokenInfo.totalSupply tokenInfo) (TokenInfo.maxSupply tokenInfo)
           (TokenInfo.supplyType tokenInfo) (TokenInfo.treasuryAccountId tokenInfo)
           (TokenInfo.supplyKey tokenInfo) (TokenInfo.creationTime tokenInfo)
           treasuryAccount)).

(** [Array.isArray(metadataArray) ? metadataArray : [metadataArray]] *)
Definition metadatas_of (metadataArray : jsval) : list jsval :=
  match metadataArray with
  | JArr items => items
  | v => [v]
  end.

(** [typeof metadata === 'string' ? metadata : JSON.stringify(metadata)] *)
Definition metadataString (metadata : jsval) : option string :=
  match metadata with
  | JStr s => Some s
  | v => JSON.stringify v
  end.

(** [Buffer.from(x)], which raises on [undefined]. *)
Definition Buffer_from_js (x : option string) : Error + Buffer :=
  match x with
  | Some s => inr (Buffer_from s)
  | None => inl (TypeError "The first argument must be of type string. Received undefined")
  end.

(** [metadatas.map(metadata => Buffer.from(metadataString))] *)
Fixpoint metadataBuffers (metadatas : list jsval) : Error + list Buffer :=
  match metadatas with
  | [] => inr []
  | metadata :: rest =>
      match Buffer_from_js (metadataString metadata) with
      | inl e => inl e
      | inr b =>
          match metadataBuffers rest with
          | inl e => inl e
          | inr bs => inr (b :: bs)
          end
      end
  end.

(** [serials?.length || 0] *)
Definition count_of (serials : option (list Z)) : Z :=
  match serials with
  | Some l => Z.of_nat (length l)
  | None => 0
  end.

(** [mintNFTs(tokenData, metadataArray)] *)
Definition mintNFTs (tokenData : Token.t) (metadataArray : jsval) : M MintResult.t :=
  rethrow (
    client <- getClient ;;
    let metadatas := metadatas_of metadataArray in
    buffers <- lift (metadataBuffers metadatas) ;;
    let transaction := TokenMintTransaction (Token.tokenId tokenData) buffers in
    call (FreezeWith transaction client) ;;
    signKey <- field (Token.treasuryAccount tokenData) Account.privateKey ;;
    call (Sign transaction signKey) ;;
    response <- call (Execute transaction client) ;;
    receipt <- call (GetReceipt response client) ;;
    let serials := Receipt.serials receipt in
    mintedAt <- date_now ;;
    ret (MintResult.mk serials (Receipt.status receipt) (Token.tokenId tokenData)
           (count_of serials) mintedAt)).

(** [getTokenBasicInfo(tokenId)] *)
Definition getTokenBasicInfo (tokenId : option TokenId) : M TokenBasicInfo.t :=
  rethrow (
    client <- getClient ;;
    tokenInfo <- call (TokenInfoQuery tokenId client) ;;
    ret (TokenBasicInfo.mk
           (toString <$> TokenInfo.tokenId tokenInfo)
           (TokenInfo.name tokenInfo) (TokenInfo.symbol tokenInfo)
           (toString <$> TokenInfo.tokenType tokenInfo)
           (toString <$> TokenInfo.totalSupply tokenInfo)
           (toString <$> TokenInfo.maxSupply tokenInfo)
           (toString <$> TokenInfo.treasuryAccountId tokenInfo))).

(** [associateTokenToAccount(account, tokenId)] *)
Definition associateTokenToAccount (account : loc) (tokenId : option TokenId)
  : M Association.t :=
  rethrow (
    client <- getClient ;;
    accountId <- field account Account.accountId ;;
    let transaction := TokenAssociateTransaction accountId [tokenId] in
    call (FreezeWith transaction client) ;;
    signKey <- field account Account.privateKey ;;
    call (Sign transaction signKey) ;;
    response <- call (Execute transaction client) ;;
    receipt <- call (GetReceipt response client) ;;
    associatedAt <- date_now ;;
    ret (Association.mk (Receipt.status receipt) accountId tokenId associatedAt)).

(** [accountId?.toString()] for the two forms of the argument. *)
Definition AccountRef_toString (r : AccountRef) : option string :=
  match r with
  | RefString s => Some s
  | RefId id => toString <$> id
  end.

(** The [forEach] that fills [result.tokens], guarded by
    [balance.tokens && balance.tokens.size > 0]. *)
Definition readable_tokens (tokens : option (list (TokenId * Z))) : gmap string string :=
  match tokens with
  | Some l =>
      if (0 <? Z.of_nat (length l))
      then foldl (fun acc '(tokenId, amount) => <[toString tokenId := toString amount]> acc) ∅ l
      else ∅
  | None => ∅
  end.

(** [getAccountBalance(account)]: an account id string, or an account object. *)
Definition getAccountBalance (account : string + loc) : M Balance.t :=
  rethrow (
    client <- getClient ;;
    accountId <-
      match account with
      | inl s => ret (RefString s)
      | inr l => id <- field l Account.accountId ;; ret (RefId id)
      end ;;
    balance <- call (AccountBalanceQuery accountId client) ;;
    ret (Balance.mk (AccountRef_toString accountId)
           (toString <$> AccountBalance.hbars balance)
           (readable_tokens (AccountBalance.tokens balance)))).

(** [transferNFT(tokenId, fromAccount, toAccount, serialNumber)]; the chain
    [transaction.sign(k1).sign(k2)] is two signatures of the transaction, one
    after the other. *)
Definition transferNFT (tokenId : option TokenId) (fromAccount toAccount : loc)
    (serialNumber : option Z) : M Transfer.t :=
  rethrow (
    client <- getClient ;;
    fromId <- field fromAccount Account.accountId ;;
    toId <- field toAccount Account.accountId ;;
    let transaction := TransferTransaction tokenId serialNumber fromId toId in
    call (FreezeWith transaction client) ;;
    fromKey <- field fromAccount Account.privateKey ;;
    call (Sign transaction fromKey) ;;
    toKey <- field toAccount Account.privateKey ;;
    call (Sign transaction toKey) ;;
    response <- call (Execute transaction client) ;;
    receipt <- call (GetReceipt response client) ;;
    transferredAt <- date_now ;;
    ret (Transfer.mk (Receipt.status receipt) tokenId serialNumber
           (toString <$> fromId) (toString <$> toId) transferredAt)).

(** The marker of the tolerated association error. *)
Definition TOKEN_ALREADY_ASSOCIATED : string := "TOKEN_ALREADY_ASSOCIATED".

(** The inner try/catch of [transferNFTWithBalanceCheck] (step 2). *)
Definition associate_if_needed (toAccount : loc) (tokenId : option TokenId) : M unit :=
  try_catch
    (associateTokenToAccount toAccount tokenId ;; ret tt)
    (fun error =>
       if includes (message error) TOKEN_ALREADY_ASSOCIATED
       then ret tt
       else throw error).

(** [transferResult.status?.toString() === "SUCCESS"] *)
Definition is_success (status : option Status) : bool :=
  bool_decide (toString <$> status = Some "SUCCESS").

(** [transferNFTWithBalanceCheck(tokenId, fromAccount, toAccount, serialNumber)] *)
Definition transferNFTWithBalanceCheck (tokenId : option TokenId)
    (fromAccount toAccount : loc) (serialNumber : option Z) : M TransferCheck.t :=
  rethrow (
    beforeBalanceFrom <- getAccountBalance (inr fromAccount) ;;
    beforeBalanceTo <- getAccountBalance (inr toAccount) ;;
    associate_if_needed toAccount tokenId ;;
    transferResult <- transferNFT tokenId fromAccount toAccount serialNumber ;;
    afterBalanceFrom <- getAccountBalance (inr fromAccount) ;;
    afterBalanceTo <- getAccountBalance (inr toAccount) ;;
    fromId <- field fromAccount Account.accountId ;;
    toId <- field toAccount Account.accountId ;;
    ret (TransferCheck.mk transferResult
           (TransferCheck.mkBalances beforeBalanceFrom beforeBalanceTo)
           (TransferCheck.mkBalances afterBalanceFrom afterBalanceTo)
           (TransferCheck.mkSummary (toString <$> tokenId) serialNumber
              (toString <$> fromId) (toString <$> toId)
              (is_success (Transfer.status transferResult))))).

(** [createCompleteNFTCollection(tokenConfig = {}, metadataArray = [],
    initialBalance = 100)] *)
Definition createCompleteNFTCollection (tokenConfig : option TokenConfig.t)
    (metadataArray : option (list jsval)) (initialBalance : option Z) : M Collection.t :=
  let tokenConfig := default TokenConfig.empty tokenConfig in
  let metadataArray := default [] metadataArray in
  let initialBalance := default 100 initialBalance in
  rethrow (
    account <- createAccount (Some initialBalance) ;;
    tokenData <- createNFTToken account (Some tokenConfig) ;;
    mintResult <-
      (if (0 <? Z.of_nat (length metadataArray))
       then r <- mintNFTs tokenData (JArr metadataArray) ;; ret (Some r)
       else ret None) ;;
    accountId <- field account Account.accountId ;;
    ret (Collection.mk account tokenData mintResult
           (Collection.mkSummary
              (toString <$> accountId)
              (toString <$> Token.tokenId tokenData)
              (default 0 (MintResult.count <$> mintResult))
              (default [] (mintResult ≫= fun r => map toString <$> MintResult.serials r))))).

(** ** The script [index.js] *)

Section Script.

(** [src/data/ipfs-cid.js] is not part of the sources at hand: the collection
    it exports and [process.env] are parameters of the script. *)
Variable COLLECTION_INFO : CollectionInfo.t.
Variable IPFS_CID_COLLECTION : jsval.
Variable env : gmap string string.

(** Reading an identifier that no declaration binds. *)
Definition unbound {A} (identifier : string) : M A :=
  throw (ReferenceError (identifier +:+ " is not defined")).

(** The try block of [main]. *)
Definition main_try : M (option MainResult.t) :=
  (* Step 1 *)
  university <- createAccount (Some 500) ;;
  universityId <- field university Account.accountId ;;
  strict universityId ;;
  bob <- createAccount (Some 150) ;;
  bobId <- field bob Account.accountId ;;
  strict bobId ;;
  (* Step 2 *)
  token <- createNFTToken university
             (Some (TokenConfig.mk (Some (CollectionInfo.name COLLECTION_INFO))
                                   (Some (CollectionInfo.symbol COLLECTION_INFO))
                                   (Some (CollectionInfo.maxSupply COLLECTION_INFO)))) ;;
  strict (Token.tokenId token) ;;
  (* Step 3 *)
  mintResult <- mintNFTs token IPFS_CID_COLLECTION ;;
  serials <- strict (MintResult.serials mintResult) ;;
  (* Step 4: [getAccountBalance(alice)], and no [alice] is declared *)
  alice <- unbound "alice" ;;
  aliceBalanceBefore <- getAccountBalance alice ;;
  bobBalanceBefore <- getAccountBalance (inr bob) ;;
  (* Step 5 *)
  transferResult <-
    transferNFTWithBalanceCheck (Token.tokenId token) university bob (serials !! 0%nat) ;;
  (* Step 6 *)
  universityBalanceAfter <- getAccountBalance (inr university) ;;
  bobBalanceAfter <- getAccountBalance (inr bob) ;;
  (* Summary *)
  universityId' <- field university Account.accountId ;;
  strict universityId' ;;
  bobId' <- field bob Account.accountId ;;
  strict bobId' ;;
  strict (Token.tokenId token) ;;
  ret (Some (MainResult.mk university bob token mintResult transferResult)).

(** [main()]: the constructor runs before the try; the catch block logs and
    falls through, so that [main] returns [undefined] ([None]); the finally
    block closes the client. *)
Definition main : M (option MainResult.t) :=
  constructor env ;;
  try_finally (try_catch main_try (fun error => ret None)) close.

End Script.

(** * Properties *)

(** ** Runs that stop at the first SDK error *)

(** A run is [clean] when its SDK calls all succeeded, or when the last one
    failed, the ones before it succeeded, and the run threw that very error. *)
Inductive clean : option Error -> list event -> Prop :=
| clean_all_ok o t : Forall ev_ok t -> clean o t
| clean_failed e ev pre :
    Forall ev_ok pre -> ev_error ev = Some e -> clean (Some e) (pre ++ [ev]).

Definition fail_fast {A} (m : M A) : Prop :=
  forall s, clean (thrown (outcome_of (m s))) (trace_of (m s)).

(** The same, as a statement on each failed call of the run: it is the last
    call, and its error is what the run throws. *)
Definition rethrows_unchanged {A} (m : M A) : Prop :=
  forall s pre ev post e,
    trace_of (m s) = pre ++ ev :: post ->
    ev_error ev = Some e ->
    post = [] /\ outcome_of (m s) = Throw e.

Lemma ok_prefix_split (t1 t2 pre post : list event) (ev : event) (e : Error) :
  Forall ev_ok t1 -> ev_error ev = Some e ->
  t1 ++ t2 = pre ++ ev :: post ->
  exists pre', pre = t1 ++ pre' /\ t2 = pre' ++ ev :: post.
Proof.
  intros Hok Hev. revert pre.
  induction Hok as [|x t1 Hx Hok IH]; intros pre Heq; simpl in *.
  - exists pre. split; [reflexivity | exact Heq].
  - destruct pre as [|y pre]; simpl in Heq.
    + inversion Heq; subst. unfold ev_ok in Hx. congruence.
    + inversion Heq; subst.
      destruct (IH pre H1) as (pre' & -> & ->).
      exists pre'. split; reflexivity.
Qed.

Lemma ok_no_failure (t pre post : list event) (ev : event) (e : Error) :
  Forall ev_ok t -> ev_error ev = Some e -> t <> pre ++ ev :: post.
Proof.
  intros Hok Hev Heq. subst t.
  apply Forall_app in Hok as [_ Hok]. apply Forall_cons in Hok as [Hok _].
  unfold ev_ok in Hok. congruence.
Qed.

Lemma clean_failure_last (o : option Error) (t pre post : list event) (ev : event) (e : Error) :
  clean o t -> t = pre ++ ev :: post -> ev_error ev = Some e ->
  post = [] /\ o = Some e.
Proof.
  intros Hc Heq Hev. destruct Hc as [o t Hok | e0 ev0 pre0 Hok Hev0].
  - exfalso. eapply ok_no_failure; eauto.
  - destruct (ok_prefix_split pre0 [ev0] pre post ev e Hok Hev Heq) as (pre' & -> & Hlast).
    destruct pre' as [|x pre']; simpl in Hlast.
    + inversion Hlast; subst. split; [reflexivity | congruence].
    + inversion Hlast as [[Hx Hnil]]. destruct pre'; discriminate.
Qed.

Lemma clean_ok_outcome (t : list event) : clean None t -> Forall ev_ok t.
Proof. inversion 1; subst; assumption. Qed.

Lemma thrown_outcome {A} (o : outcome A) (e : Error) : thrown o = Some e -> o = Throw e.
Proof. destruct o; simpl; congruence. Qed.

Lemma fail_fast_rethrows {A} (m : M A) : fail_fast m -> rethrows_unchanged m.
Proof.
  intros Hm s pre ev post e Ht Hev.
  destruct (clean_failure_last _ _ _ _ _ _ (Hm s) Ht Hev) as [-> Ho].
  split; [reflexivity | by apply thrown_outcome].
Qed.

Lemma clean_app (o : option Error) (t1 t2 : list event) :
  Forall ev_ok t1 -> clean o t2 -> clean o (t1 ++ t2).
Proof.
  intros H1 [o' t Hok | e ev pre Hok Hev].
  - apply clean_all_ok. by apply Forall_app.
  - rewrite app_assoc. apply clean_failed; [by apply Forall_app | assumption].
Qed.

Lemma fail_fast_ret {A} (a : A) : fail_fast (ret a).
Proof. intros s. apply clean_all_ok. constructor. Qed.

Lemma fail_fast_throw {A} (e : Error) : fail_fast (@throw A e).
Proof. intros s. apply clean_all_ok. constructor. Qed.

Lemma fail_fast_bind {A B} (m : M A) (f : A -> M B) :
  fail_fast m -> (forall a, fail_fast (f a)) -> fail_fast (bind m f).
Proof.
  intros Hm Hf s. specialize (Hm s). unfold bind.
  destruct (m s) as [[[a|e] s1] t1]; simpl in *.
  - specialize (Hf a s1). destruct (f a s1) as [[o2 s2] t2]; simpl in *.
    apply clean_app; [by apply clean_ok_outcome | assumption].
  - assumption.
Qed.

Lemma rethrow_eq {A} (m : M A) (s : state W) : rethrow m s = m s.
Proof.
  unfold rethrow, try_catch, throw. destruct (m s) as [[[a|e] s1] t1]; [reflexivity | ].
  by rewrite app_nil_r.
Qed.

Lemma fail_fast_rethrow {A} (m : M A) : fail_fast m -> fail_fast (rethrow m).
Proof. intros Hm s. rewrite rethrow_eq. apply Hm. Qed.

Lemma fail_fast_call (op : sdk_op) : fail_fast (call op).
Proof.
  intros s. unfold call. destruct (sdk op (world s)) as [[e|v] w]; simpl.
  - apply (clean_failed e (Ev op (inl e)) []); [constructor | reflexivity].
  - apply clean_all_ok. repeat constructor.
Qed.

Lemma fail_fast_silent {A} (m : M A) : (forall s, trace_of (m s) = []) -> fail_fast m.
Proof. intros Hm s. rewrite Hm. apply clean_all_ok. constructor. Qed.

Lemma fail_fast_field {A} (l : loc) (proj : Account.t -> A) : fail_fast (field l proj).
Proof. apply fail_fast_silent. intros s. unfold field. by destruct (heap s !! l). Qed.

Lemma fail_fast_strict {A} (x : option A) : fail_fast (strict x).
Proof. destruct x; [apply fail_fast_ret | apply fail_fast_throw]. Qed.

Lemma fail_fast_lift {A} (r : Error + A) : fail_fast (lift r).
Proof. destruct r; [apply fail_fast_throw | apply fail_fast_ret]. Qed.

Create HintDb fail_fast.
#[local] Hint Resolve fail_fast_ret fail_fast_throw fail_fast_call fail_fast_field
  fail_fast_strict fail_fast_lift : fail_fast.

Ltac fail_fast_steps :=
  repeat first
    [ apply fail_fast_rethrow
    | apply fail_fast_bind; [ | intros ? ]
    | solve [ auto with fail_fast ]
    | solve [ apply fail_fast_silent; intros ?; reflexivity ]
    | match goal with |- fail_fast (match ?x with _ => _ end) => destruct x end
    | match goal with |- fail_fast (if ?b then _ else _) => destruct b end ].

Lemma fail_fast_getClient : fail_fast getClient.
Proof. unfold getClient. fail_fast_steps. Qed.

Lemma fail_fast_close : fail_fast close.
Proof. unfold close. fail_fast_steps. Qed.

Lemma fail_fast_createAccount b : fail_fast (createAccount b).
Proof. unfold createAccount. pose proof fail_fast_getClient. fail_fast_steps. Qed.

Lemma fail_fast_createNFTToken l cfg : fail_fast (createNFTToken l cfg).
Proof. unfold createNFTToken. pose proof fail_fast_getClient. fail_fast_steps. Qed.

Lemma fail_fast_mintNFTs tok md : fail_fast (mintNFTs tok md).
Proof. unfold mintNFTs. pose proof fail_fast_getClient. fail_fast_steps. Qed.

Lemma fail_fast_getTokenBasicInfo id : fail_fast (getTokenBasicInfo id).
Proof. unfold getTokenBasicInfo. pose proof fail_fast_getClient. fail_fast_steps. Qed.

Lemma fail_fast_associateTokenToAccount l id : fail_fast (associateTokenToAccount l id).
Proof. unfold associateTokenToAccount. pose proof fail_fast_getClient. fail_fast_steps. Qed.

Lemma fail_fast_getAccountBalance a : fail_fast (getAccountBalance a).
Proof. unfold getAccountBalance. pose proof fail_fast_getClient. fail_fast_steps. Qed.

Lemma fail_fast_transferNFT id l1 l2 n : fail_fast (transferNFT id l1 l2 n).
Proof. unfold transferNFT. pose proof fail_fast_getClient. fail_fast_steps. Qed.

Lemma fail_fast_createCompleteNFTCollection cfg md b :
  fail_fast (createCompleteNFTCollection cfg md b).
Proof.
  unfold createCompleteNFTCollection.
  pose proof fail_fast_createAccount. pose proof fail_fast_createNFTToken.
  pose proof fail_fast_mintNFTs. fail_fast_steps.
Qed.


(** Where a failed call of [bind m f] sits: it ended [m], or it is a call of
    the continuation. *)
Lemma bind_failure {A B} (m : M A) (f : A -> M B) (s : state W)
    (pre post : list event) (ev : event) (e : Error) :
  fail_fast m ->
  trace_of (bind m f s) = pre ++ ev :: post ->
  ev_error ev = Some e ->
  (post = [] /\ outcome_of (bind m f s) = Throw e)
  \/ exists a s1 t1 pre',
       m s = (Ok a, s1, t1) /\ pre = t1 ++ pre' /\
       trace_of (f a s1) = pre' ++ ev :: post /\
       outcome_of (bind m f s) = outcome_of (f a s1).
Proof.
  intros Hm Ht Hev. specialize (Hm s). unfold bind in *.
  destruct (m s) as [[[a|e0] s1] t1]; simpl in *.
  - right. apply clean_ok_outcome in Hm.
    destruct (f a s1) as [[o2 s2] t2] eqn:Hf; simpl in *.
    destruct (ok_prefix_split _ _ _ _ _ _ Hm Hev Ht) as (pre' & -> & ->).
    exists a, s1, t1, pre'. by rewrite Hf.
  - left. destruct (clean_failure_last _ _ _ _ _ _ Hm Ht Hev) as [-> Ho].
    split; [reflexivity | injection Ho as ->; reflexivity].
Qed.

(** The error the association step of the transfer workflow puts up with. *)
Definition tolerated (e : Error) : Prop :=
  includes (message e) TOKEN_ALREADY_ASSOCIATED = true.

Lemma associate_if_needed_run (toAccount : loc) (tokenId : option TokenId) (s : state W) :
  associate_if_needed toAccount tokenId s =
  match associateTokenToAccount toAccount tokenId s with
  | (Ok _, s1, t1) => (Ok tt, s1, t1)
  | (Throw e, s1, t1) =>
      if includes (message e) TOKEN_ALREADY_ASSOCIATED
      then (Ok tt, s1, t1)
      else (Throw e, s1, t1)
  end.
Proof.
  unfold associate_if_needed, try_catch, bind, ret, throw.
  destruct (associateTokenToAccount toAccount tokenId s) as [[[a|e] s1] t1]; simpl.
  - by rewrite app_nil_r.
  - destruct (includes (message e) TOKEN_ALREADY_ASSOCIATED); by rewrite app_nil_r.
Qed.

(** The steps of the transfer workflow after the association step. *)
Lemma fail_fast_after_association tokenId fromAccount toAccount serialNumber b1 b2 :
  fail_fast (
    transferResult <- transferNFT tokenId fromAccount toAccount serialNumber ;;
    afterBalanceFrom <- getAccountBalance (inr fromAccount) ;;
    afterBalanceTo <- getAccountBalance (inr toAccount) ;;
    fromId <- field fromAccount Account.accountId ;;
    toId <- field toAccount Account.accountId ;;
    ret (TransferCheck.mk transferResult
           (TransferCheck.mkBalances b1 b2)
           (TransferCheck.mkBalances afterBalanceFrom afterBalanceTo)
           (TransferCheck.mkSummary (toString <$> tokenId) serialNumber
              (toString <$> fromId) (toString <$> toId)
              (is_success (Transfer.status transferResult))))).
Proof.
  pose proof fail_fast_transferNFT. pose proof fail_fast_getAccountBalance.
  fail_fast_steps.
Qed.

(** A failed call of the association step followed by [k]: it ended the run,
    or it ended the association step with an error that is put up with. *)
Lemma association_failure {B} (k : M B) toAccount tokenId (s : state W)
    (pre post : list event) (ev : event) (e : Error) :
  let run := bind (associate_if_needed toAccount tokenId) (fun _ => k) s in
  fail_fast k ->
  trace_of run = pre ++ ev :: post ->
  ev_error ev = Some e ->
  (post = [] /\ outcome_of run = Throw e)
  \/ (tolerated e /\
      exists s_b, associateTokenToAccount toAccount tokenId s = (Throw e, s_b, pre ++ [ev])).
Proof.
  intros run Hk Ht Hev. subst run. unfold bind in *.
  rewrite associate_if_needed_run in *.
  pose proof (fail_fast_associateTokenToAccount toAccount tokenId s) as Ha.
  destruct (associateTokenToAccount toAccount tokenId s) as [[[a|e3] s3] t3] eqn:Hrun;
    simpl in Ha.
  - (* the association succeeded *)
    apply clean_ok_outcome in Ha. specialize (Hk s3).
    destruct (k s3) as [[o4 s4] t4]. simpl in *.
    destruct (ok_prefix_split _ _ _ _ _ _ Ha Hev Ht) as (pre' & -> & ->).
    left. destruct (clean_failure_last _ _ _ _ _ _ Hk eq_refl Hev) as [-> Ho].
    split; [reflexivity | by apply thrown_outcome].
  - destruct (includes (message e3) TOKEN_ALREADY_ASSOCIATED) eqn:Hinc.
    + (* the association threw, and the error is put up with *)
      specialize (Hk s3). destruct (k s3) as [[o4 s4] t4]. simpl in *.
      inversion Ha as [o t Hok | e0 ev0 pre0 Hok Hev0]; subst.
      * destruct (ok_prefix_split _ _ _ _ _ _ Hok Hev Ht) as (pre' & -> & ->).
        left. destruct (clean_failure_last _ _ _ _ _ _ Hk eq_refl Hev) as [-> Ho].
        split; [reflexivity | by apply thrown_outcome].
      * rewrite <- app_assoc in Ht. simpl in Ht.
        destruct (ok_prefix_split _ _ _ _ _ _ Hok Hev Ht) as (pre' & -> & Hsplit).
        destruct pre' as [|x pre']; simpl in Hsplit.
        -- inversion Hsplit; subst. right.
           assert (e3 = e) as -> by congruence.
           split; [exact Hinc | ].
           exists s3. by rewrite app_nil_r.
        -- inversion Hsplit; subst. left.
           destruct (clean_failure_last _ _ _ _ _ _ Hk eq_refl Hev) as [-> Ho].
           split; [reflexivity | by apply thrown_outcome].
    + (* the association threw anything else *)
      simpl in *. left.
      destruct (clean_failure_last _ _ _ _ _ _ Ha Ht Hev) as [-> Ho].
      split; [reflexivity | injection Ho as ->; reflexivity].
Qed.

Lemma transferNFTWithBalanceCheck_failures tokenId fromAccount toAccount serialNumber
    (s : state W) (pre post : list event) (ev : event) (e : Error) :
  let run := transferNFTWithBalanceCheck tokenId fromAccount toAccount serialNumber s in
  trace_of run = pre ++ ev :: post ->
  ev_error ev = Some e ->
  (post = [] /\ outcome_of run = Throw e)
  \/ (tolerated e /\
      exists s_a s_b pre0 pre_a,
        pre = pre0 ++ pre_a /\
        associateTokenToAccount toAccount tokenId s_a = (Throw e, s_b, pre_a ++ [ev])).
Proof.
  intros run Ht Hev. subst run. unfold transferNFTWithBalanceCheck in *.
  rewrite rethrow_eq in *.
  destruct (bind_failure _ _ _ _ _ _ _ (fail_fast_getAccountBalance _) Ht Hev)
    as [?|(b1 & s1 & t1 & pre1 & _ & -> & Ht1 & ->)]; [by left | ].
  clear Ht.
  destruct (bind_failure _ _ _ _ _ _ _ (fail_fast_getAccountBalance _) Ht1 Hev)
    as [?|(b2 & s2 & t2 & pre2 & _ & -> & Ht2 & ->)]; [by left | ].
  clear Ht1.
  pose proof (fail_fast_after_association tokenId fromAccount toAccount serialNumber b1 b2)
    as Hrest.
  destruct (association_failure _ _ _ _ _ _ _ _ Hrest Ht2 Hev) as [?|[Htol [s_b Hassoc]]];
    [by left | right].
  split; [exact Htol | ].
  exists s2, s_b, (t1 ++ t2), pre2. split; [by rewrite app_assoc | exact Hassoc].
Qed.

(** C3. Every method of the service stops at the first SDK call that throws
    and throws that same error: a failed call of a run is its last call, and
    its error is the outcome of the run.  The one exception is in
    [transferNFTWithBalanceCheck]: a failed call may be followed by others
    only when it ended the association step with an error whose message
    contains TOKEN_ALREADY_ASSOCIATED. *)
Theorem sdk_errors_rethrown_unchanged :
  rethrows_unchanged getClient /\
  rethrows_unchanged close /\
  (forall initialBalance, rethrows_unchanged (createAccount initialBalance)) /\
  (forall treasuryAccount tokenConfig,
      rethrows_unchanged (createNFTToken treasuryAccount tokenConfig)) /\
  (forall tokenData metadataArray, rethrows_unchanged (mintNFTs tokenData metadataArray)) /\
  (forall tokenId, rethrows_unchanged (getTokenBasicInfo tokenId)) /\
  (forall account tokenId, rethrows_unchanged (associateTokenToAccount account tokenId)) /\
  (forall account, rethrows_unchanged (getAccountBalance account)) /\
  (forall tokenId fromAccount toAccount serialNumber,
      rethrows_unchanged (transferNFT tokenId fromAccount toAccount serialNumber)) /\
  (forall tokenConfig metadataArray initialBalance,
      rethrows_unchanged (createCompleteNFTCollection tokenConfig metadataArray initialBalance)) /\
  (forall tokenId fromAccount toAccount serialNumber s pre ev post e,
      let run := transferNFTWithBalanceCheck tokenId fromAccount toAccount serialNumber s in
      trace_of run = pre ++ ev :: post ->
      ev_error ev = Some e ->
      (post = [] /\ outcome_of run = Throw e)
      \/ (tolerated e /\
          exists s_a s_b pre0 pre_a,
            pre = pre0 ++ pre_a /\
            associateTokenToAccount toAccount tokenId s_a = (Throw e, s_b, pre_a ++ [ev]))).
Proof.
  split; [apply fail_fast_rethrows, fail_fast_getClient | ].
  split; [apply fail_fast_rethrows, fail_fast_close | ].
  split; [intros; apply fail_fast_rethrows, fail_fast_createAccount | ].
  split; [intros; apply fail_fast_rethrows, fail_fast_createNFTToken | ].
  split; [intros; apply fail_fast_rethrows, fail_fast_mintNFTs | ].
  split; [intros; apply fail_fast_rethrows, fail_fast_getTokenBasicInfo | ].
  split; [intros; apply fail_fast_rethrows, fail_fast_associateTokenToAccount | ].
  split; [intros; apply fail_fast_rethrows, fail_fast_getAccountBalance | ].
  split; [intros; apply fail_fast_rethrows, fail_fast_transferNFT | ].
  split; [intros; apply fail_fast_rethrows, fail_fast_createCompleteNFTCollection | ].
  intros. by apply transferNFTWithBalanceCheck_failures.
Qed.

(** ** The store of account objects *)

(** A computation that leaves every account object as it found it, and
    creates none. *)
Definition keeps_heap {A} (m : M A) : Prop :=
  forall s, heap (state_of (m s)) = heap s.

Lemma keeps_heap_bind {A B} (m : M A) (f : A -> M B) :
  keeps_heap m -> (forall a, keeps_heap (f a)) -> keeps_heap (bind m f).
Proof.
  intros Hm Hf s. specialize (Hm s). unfold bind.
  destruct (m s) as [[[a|e] s1] t1]; simpl in *; [ | exact Hm].
  specialize (Hf a s1). destruct (f a s1) as [[o2 s2] t2]; simpl in *. congruence.
Qed.

Lemma keeps_heap_try_catch {A} (m : M A) (h : Error -> M A) :
  keeps_heap m -> (forall e, keeps_heap (h e)) -> keeps_heap (try_catch m h).
Proof.
  intros Hm Hh s. specialize (Hm s). unfold try_catch.
  destruct (m s) as [[[a|e] s1] t1]; simpl in *; [exact Hm | ].
  specialize (Hh e s1). destruct (h e s1) as [[o2 s2] t2]; simpl in *. congruence.
Qed.

Lemma keeps_heap_call (op : sdk_op) : keeps_heap (call op).
Proof.
  intros s. unfold call. by destruct (sdk op (world s)) as [[e|v] w].
Qed.

Lemma keeps_heap_field {A} (l : loc) (proj : Account.t -> A) : keeps_heap (field l proj).
Proof. intros s. unfold field. by destruct (heap s !! l). Qed.

Lemma keeps_heap_ret {A} (a : A) : keeps_heap (ret a).
Proof. by intros s. Qed.

Lemma keeps_heap_throw {A} (e : Error) : keeps_heap (@throw A e).
Proof. by intros s. Qed.

Lemma keeps_heap_set_client c : keeps_heap (set_client c).
Proof. by intros s. Qed.

Lemma keeps_heap_lift {A} (r : Error + A) : keeps_heap (lift r).
Proof. by destruct r. Qed.

Lemma keeps_heap_strict {A} (x : option A) : keeps_heap (strict x).
Proof. by destruct x. Qed.

Create HintDb keeps_heap.
#[local] Hint Resolve keeps_heap_call keeps_heap_field keeps_heap_ret keeps_heap_throw
  keeps_heap_set_client keeps_heap_lift keeps_heap_strict : keeps_heap.

Ltac keeps_heap_steps :=
  repeat first
    [ apply keeps_heap_try_catch; [ | intros ? ]
    | apply keeps_heap_bind; [ | intros ? ]
    | solve [ auto with keeps_heap ]
    | solve [ intros ?; reflexivity ]
    | match goal with |- keeps_heap (match ?x with _ => _ end) => destruct x end
    | match goal with |- keeps_heap (if ?b then _ else _) => destruct b end ].

Lemma keeps_heap_getClient : keeps_heap getClient.
Proof. unfold getClient. keeps_heap_steps. Qed.

Lemma keeps_heap_close : keeps_heap close.
Proof. unfold close. keeps_heap_steps. Qed.

Lemma keeps_heap_createNFTToken l cfg : keeps_heap (createNFTToken l cfg).
Proof. unfold createNFTToken, rethrow. pose proof keeps_heap_getClient. keeps_heap_steps. Qed.

Lemma keeps_heap_mintNFTs tok md : keeps_heap (mintNFTs tok md).
Proof. unfold mintNFTs, rethrow. pose proof keeps_heap_getClient. keeps_heap_steps. Qed.

Lemma keeps_heap_getTokenBasicInfo id : keeps_heap (getTokenBasicInfo id).
Proof. unfold getTokenBasicInfo, rethrow. pose proof keeps_heap_getClient. keeps_heap_steps. Qed.

Lemma keeps_heap_associateTokenToAccount l id : keeps_heap (associateTokenToAccount l id).
Proof.
  unfold associateTokenToAccount, rethrow. pose proof keeps_heap_getClient. keeps_heap_steps.
Qed.

Lemma keeps_heap_getAccountBalance a : keeps_heap (getAccountBalance a).
Proof. unfold getAccountBalance, rethrow. pose proof keeps_heap_getClient. keeps_heap_steps. Qed.

Lemma keeps_heap_transferNFT id l1 l2 n : keeps_heap (transferNFT id l1 l2 n).
Proof. unfold transferNFT, rethrow. pose proof keeps_heap_getClient. keeps_heap_steps. Qed.

Lemma keeps_heap_transferNFTWithBalanceCheck id l1 l2 n :
  keeps_heap (transferNFTWithBalanceCheck id l1 l2 n).
Proof.
  unfold transferNFTWithBalanceCheck, associate_if_needed, rethrow.
  pose proof keeps_heap_getAccountBalance. pose proof keeps_heap_transferNFT.
  pose proof keeps_heap_associateTokenToAccount. keeps_heap_steps.
Qed.

(** C8. No method that is handed an account object writes to it: after
    [createNFTToken], [mintNFTs], [associateTokenToAccount],
    [getAccountBalance], [transferNFT] and [transferNFTWithBalanceCheck],
    whether they return or throw, every reference of the store names the
    record it named before, field for field. *)
Theorem account_records_untouched :
  forall (s : state W) (account : loc),
    (forall treasuryAccount tokenConfig,
        heap (state_of (createNFTToken treasuryAccount tokenConfig s)) !! account
        = heap s !! account) /\
    (forall tokenData metadataArray,
        heap (state_of (mintNFTs tokenData metadataArray s)) !! account
        = heap s !! account) /\
    (forall toAccount tokenId,
        heap (state_of (associateTokenToAccount toAccount tokenId s)) !! account
        = heap s !! account) /\
    (forall who,
        heap (state_of (getAccountBalance who s)) !! account = heap s !! account) /\
    (forall tokenId fromAccount toAccount serialNumber,
        heap (state_of (transferNFT tokenId fromAccount toAccount serialNumber s)) !! account
        = heap s !! account) /\
    (forall tokenId fromAccount toAccount serialNumber,
        heap (state_of
                (transferNFTWithBalanceCheck tokenId fromAccount toAccount serialNumber s))
          !! account
        = heap s !! account).
Proof.
  intros s account. repeat split; intros.
  - by rewrite keeps_heap_createNFTToken.
  - by rewrite keeps_heap_mintNFTs.
  - by rewrite keeps_heap_associateTokenToAccount.
  - by rewrite keeps_heap_getAccountBalance.
  - by rewrite keeps_heap_transferNFT.
  - by rewrite keeps_heap_transferNFTWithBalanceCheck.
Qed.


(** ** What a run that returns has done *)

(** The calls of a [getClient()] that returns [c]: none when a handle is
    stored, the construction and configuration of [c] otherwise. *)
Definition client_setup (srv : Service.t) (c : Client) : list event :=
  match Service.client srv with
  | Some _ => []
  | None =>
      [ Ev ClientForTestnet (inr c);
        Ev (ClientSetOperator c (Service.operatorId srv) (Service.operatorKey srv)) (inr tt);
        Ev (ClientSetDefaultMaxTransactionFee c (mkHbar 50)) (inr tt);
        Ev (ClientSetDefaultMaxQueryPayment c (mkHbar 30)) (inr tt) ]
  end.

(** [c] is the handle the service has stored, if it has stored one. *)
Definition handle_of (srv : Service.t) (c : Client) : Prop :=
  match Service.client srv with
  | Some c0 => c0 = c
  | None => True
  end.

Ltac refute_all_ok :=
  let H := fresh "Hall" in
  intros H;
  repeat (apply Forall_app in H as [_ H]);
  repeat (apply Forall_cons in H as [? H]);
  repeat match goal with
         | X : ev_ok _ |- _ => unfold ev_ok, ev_error in X; simpl in X
         end;
  discriminate.

(** A run that threw: a call failed, or a reference names no account. *)
Ltac run_throw := solve [ refute_all_ok | left; refute_all_ok | tauto | auto ].

Ltac run_call :=
  match goal with
  | |- context [sdk ?op ?w] =>
      let e := fresh "e" in
      let v := fresh "v" in
      let w' := fresh "w" in
      destruct (sdk op w) as [[e|v] w']; simpl; [ try run_throw | ]
  end.

Ltac run_field :=
  match goal with
  | H : heap ?s !! ?l = _ |- context [heap ?s !! ?l] => rewrite H; simpl
  | |- context [heap ?s !! ?l] =>
      let a := fresh "acct" in
      let Ha := fresh "Hacct" in
      destruct (heap s !! l) as [a|] eqn:Ha; simpl; [ | try run_throw ]
  end.

Ltac run_steps := repeat first [ run_call | run_field ].

Lemma getClient_run (s : state W) :
  match getClient s with
  | (Ok c, s', t) =>
      t = client_setup (this s) c /\
      handle_of (this s) c /\
        this s' = Service.with_client (Some c) (this s) /\
      heap s' = heap s
  | (Throw e, s', t) => ~ Forall ev_ok t
  end.
Proof.
  unfold getClient, client_setup, bind, get_this, set_client, call, ret.
  unfold handle_of.
  destruct s as [[id key [c|]] h w]; simpl.
  - done.
  - repeat run_call. by destruct v0, v1, v2.
Qed.

Lemma getClient_stored (s : state W) (c : Client) :
  Service.client (this s) = Some c -> getClient s = (Ok c, s, []).
Proof.
  unfold getClient, bind, get_this, ret. intros ->. reflexivity.
Qed.

(** The calls that submit a transaction: freeze, one signature per signer,
    execute, fetch the receipt. *)
Definition submitted (tx : Transaction) (signers : list PrivateKey) (c : Client)
    (response : TransactionResponse) (receipt : Receipt.t) : list event :=
  Ev (FreezeWith tx c) (inr tt)
  :: map (fun k => Ev (Sign tx k) (inr tt)) signers
  ++ [ Ev (Execute tx c) (inr response); Ev (GetReceipt response c) (inr receipt) ].

Ltac run_getClient s :=
  let Hc := fresh "Hc" in
  pose proof (getClient_run s) as Hc;
  unfold bind at 1;
  destruct (getClient s) as [[[?c|?e] [?srv1 ?h1 ?w1]] ?t1];
  [ simpl in Hc; destruct Hc as (-> & ?Hhandle & -> & ->)
  | try exact Hc; try (left; exact Hc) ].

Lemma createAccount_run (initialBalance : option Z) (s : state W) :
  match createAccount initialBalance s with
  | (Ok account, s', t) =>
      exists c key response receipt,
        t = client_setup (this s) c
            ++ [ Ev PrivateKeyGenerateED25519 (inr key);
                 Ev (Execute (AccountCreateTransaction (publicKey key)
                                (mkHbar (default 100 initialBalance))) c) (inr response);
                 Ev (GetReceipt response c) (inr receipt) ] /\
        account = length (heap s) /\
        heap s' = heap s ++ [ Account.mk (Receipt.accountId receipt) key (publicKey key)
                                (Receipt.status receipt) (default 100 initialBalance) ] /\
        handle_of (this s) c /\
        this s' = Service.with_client (Some c) (this s)
  | (Throw e, s', t) => ~ Forall ev_ok t
  end.
Proof.
  unfold createAccount. rewrite rethrow_eq. run_getClient s.
  unfold bind, call, alloc, ret. simpl. run_steps.
  by exists c, v, v0, v1.
Qed.

(** The transaction [createNFTToken] builds. *)
Definition token_create_tx (tokenConfig : option TokenConfig.t) (treasury : Account.t)
  : Transaction :=
  let config := default TokenConfig.empty tokenConfig in
  TokenCreateTransaction
    (default "diploma" (TokenConfig.name config))
    (default "GRAD" (TokenConfig.symbol config))
    NonFungibleUnique 0 0 (Account.accountId treasury) Finite
    (default 250 (TokenConfig.maxSupply config))
    (Account.privateKey treasury).

Lemma createNFTToken_run (treasuryAccount : loc) (tokenConfig : option TokenConfig.t)
    (s : state W) :
  match createNFTToken treasuryAccount tokenConfig s with
  | (Ok token, s', t) =>
      exists c treasury response receipt info,
        heap s !! treasuryAccount = Some treasury /\
        t = client_setup (this s) c
            ++ submitted (token_create_tx tokenConfig treasury)
                 [Account.privateKey treasury] c response receipt
            ++ [ Ev (TokenInfoQuery (Receipt.tokenId receipt) c) (inr info) ] /\
        token = Token.mk (Receipt.tokenId receipt) (Receipt.status receipt)
                  (TokenInfo.name info) (TokenInfo.symbol info) (TokenInfo.tokenType info)
                  (TokenInfo.decimals info) (TokenInfo.totalSupply info)
                  (TokenInfo.maxSupply info) (TokenInfo.supplyType info)
                  (TokenInfo.treasuryAccountId info) (TokenInfo.supplyKey info)
                  (TokenInfo.creationTime info) treasuryAccount /\
        handle_of (this s) c /\
        this s' = Service.with_client (Some c) (this s) /\
        heap s' = heap s
  | (Throw e, s', t) => ~ Forall ev_ok t \/ heap s !! treasuryAccount = None
  end.
Proof.
  unfold createNFTToken. rewrite rethrow_eq. run_getClient s.
  unfold bind, call, field, ret. simpl. run_steps.
  exists c, acct, v1, v2, v3. by destruct v, v0.
Qed.


Lemma mintNFTs_run (tokenData : Token.t) (metadataArray : jsval) (s : state W) :
  match mintNFTs tokenData metadataArray s with
  | (Ok result, s', t) =>
      exists c buffers treasury response receipt,
        metadataBuffers (metadatas_of metadataArray) = inr buffers /\
        heap s !! Token.treasuryAccount tokenData = Some treasury /\
        t = client_setup (this s) c
            ++ submitted (TokenMintTransaction (Token.tokenId tokenData) buffers)
                 [Account.privateKey treasury] c response receipt /\
        result = MintResult.mk (Receipt.serials receipt) (Receipt.status receipt)
                   (Token.tokenId tokenData) (count_of (Receipt.serials receipt))
                   (now (world s')) /\
        handle_of (this s) c /\
        this s' = Service.with_client (Some c) (this s) /\
        heap s' = heap s
  | (Throw e, s', t) =>
      ~ Forall ev_ok t
      \/ heap s !! Token.treasuryAccount tokenData = None
      \/ metadataBuffers (metadatas_of metadataArray) = inl e
  end.
Proof.
  unfold mintNFTs. rewrite rethrow_eq. run_getClient s.
  unfold bind at 1.
  destruct (metadataBuffers (metadatas_of metadataArray)) as [err|buffers]; simpl.
  { right. by right. }
  unfold bind, call, field, date_now, ret. simpl. run_steps.
  exists c, buffers, acct, v1, v2. by destruct v, v0.
Qed.

Lemma getTokenBasicInfo_run (tokenId : option TokenId) (s : state W) :
  match getTokenBasicInfo tokenId s with
  | (Ok result, s', t) =>
      exists c info,
        t = client_setup (this s) c ++ [ Ev (TokenInfoQuery tokenId c) (inr info) ] /\
        result = TokenBasicInfo.mk
                   (toString <$> TokenInfo.tokenId info)
                   (TokenInfo.name info) (TokenInfo.symbol info)
                   (toString <$> TokenInfo.tokenType info)
                   (toString <$> TokenInfo.totalSupply info)
                   (toString <$> TokenInfo.maxSupply info)
                   (toString <$> TokenInfo.treasuryAccountId info) /\
        handle_of (this s) c /\
        this s' = Service.with_client (Some c) (this s) /\
        heap s' = heap s
  | (Throw e, s', t) => ~ Forall ev_ok t
  end.
Proof.
  unfold getTokenBasicInfo. rewrite rethrow_eq. run_getClient s.
  unfold bind, call, ret. simpl. run_steps.
  by exists c, v.
Qed.

Lemma associateTokenToAccount_run (account : loc) (tokenId : option TokenId) (s : state W) :
  match associateTokenToAccount account tokenId s with
  | (Ok result, s', t) =>
      exists c holder response receipt,
        heap s !! account = Some holder /\
        t = client_setup (this s) c
            ++ submitted (TokenAssociateTransaction (Account.accountId holder) [tokenId])
                 [Account.privateKey holder] c response receipt /\
        result = Association.mk (Receipt.status receipt) (Account.accountId holder) tokenId
                   (now (world s')) /\
        handle_of (this s) c /\
        this s' = Service.with_client (Some c) (this s) /\
        heap s' = heap s
  | (Throw e, s', t) => ~ Forall ev_ok t \/ heap s !! account = None
  end.
Proof.
  unfold associateTokenToAccount. rewrite rethrow_eq. run_getClient s.
  unfold bind, call, field, date_now, ret. simpl. run_steps.
  exists c, acct, v1, v2. by destruct v, v0.
Qed.

(** What [getAccountBalance] asks the balance of. *)
Definition account_ref (h : list Account.t) (account : string + loc) : option AccountRef :=
  match account with
  | inl accountId => Some (RefString accountId)
  | inr l => (fun a => RefId (Account.accountId a)) <$> h !! l
  end.

Lemma getAccountBalance_run (account : string + loc) (s : state W) :
  match getAccountBalance account s with
  | (Ok result, s', t) =>
      exists c ref balance,
        account_ref (heap s) account = Some ref /\
        t = client_setup (this s) c ++ [ Ev (AccountBalanceQuery ref c) (inr balance) ] /\
        result = Balance.mk (AccountRef_toString ref)
                   (toString <$> AccountBalance.hbars balance)
                   (readable_tokens (AccountBalance.tokens balance)) /\
        handle_of (this s) c /\
        this s' = Service.with_client (Some c) (this s) /\
        heap s' = heap s
  | (Throw e, s', t) => ~ Forall ev_ok t \/ account_ref (heap s) account = None
  end.
Proof.
  unfold getAccountBalance. rewrite rethrow_eq. run_getClient s.
  unfold account_ref.
  destruct account as [accountId|l]; unfold bind, call, field, ret; simpl; run_steps.
  by exists c, (RefString accountId), v.
  by exists c, (RefId (Account.accountId acct)), v.
Qed.

Lemma transferNFT_run (tokenId : option TokenId) (fromAccount toAccount : loc)
    (serialNumber : option Z) (s : state W) :
  match transferNFT tokenId fromAccount toAccount serialNumber s with
  | (Ok result, s', t) =>
      exists c sender receiver response receipt,
        heap s !! fromAccount = Some sender /\
        heap s !! toAccount = Some receiver /\
        t = client_setup (this s) c
            ++ submitted (TransferTransaction tokenId serialNumber
                            (Account.accountId sender) (Account.accountId receiver))
                 [Account.privateKey sender; Account.privateKey receiver]
                 c response receipt /\
        result = Transfer.mk (Receipt.status receipt) tokenId serialNumber
                   (toString <$> Account.accountId sender)
                   (toString <$> Account.accountId receiver)
                   (now (world s')) /\
        handle_of (this s) c /\
        this s' = Service.with_client (Some c) (this s) /\
        heap s' = heap s
  | (Throw e, s', t) =>
      ~ Forall ev_ok t \/ heap s !! fromAccount = None \/ heap s !! toAccount = None
  end.
Proof.
  unfold transferNFT. rewrite rethrow_eq. run_getClient s.
  unfold bind, call, field, date_now, ret. simpl. run_steps.
  exists c, acct, acct0, v2, v3. by destruct v, v0, v1.
Qed.


(** ** Sequencing *)



Lemma bind_ok_trace {A B} (m : M A) (f : A -> M B) (s s1 : state W) (a : A)
    (t1 : list event) :
  m s = (Ok a, s1, t1) -> trace_of (bind m f s) = t1 ++ trace_of (f a s1).
Proof. unfold bind. intros ->. by destruct (f a s1) as [[o s2] t2]. Qed.

Lemma call_trace (op : sdk_op) (s : state W) : exists r, trace_of (call op s) = [Ev op r].
Proof.
  unfold call. destruct (sdk op (world s)) as [[e|v] w]; simpl; by eexists.
Qed.

Lemma bind_trace_prefix {A B} (m : M A) (f : A -> M B) (s : state W) :
  exists rest, trace_of (bind m f s) = trace_of (m s) ++ rest.
Proof.
  unfold bind. destruct (m s) as [[[a|e] s1] t1]; simpl.
  - destruct (f a s1) as [[o s2] t2]. by exists t2.
  - exists []. by rewrite app_nil_r.
Qed.

(** ** Calls a computation never makes *)

Definition emits {A} (P : event -> Prop) (m : M A) : Prop :=
  forall s, Forall P (trace_of (m s)).

Lemma emits_bind {A B} P (m : M A) (f : A -> M B) :
  emits P m -> (forall a, emits P (f a)) -> emits P (bind m f).
Proof.
  intros Hm Hf s. specialize (Hm s). unfold bind.
  destruct (m s) as [[[a|e] s1] t1]; simpl in *; [ | exact Hm].
  specialize (Hf a s1). destruct (f a s1) as [[o2 s2] t2]; simpl in *.
  by apply Forall_app.
Qed.

Lemma emits_rethrow {A} P (m : M A) : emits P m -> emits P (rethrow m).
Proof. intros Hm s. rewrite rethrow_eq. apply Hm. Qed.

Lemma emits_call P (op : sdk_op) : (forall r, P (Ev op r)) -> emits P (call op).
Proof.
  intros HP s. unfold call. destruct (sdk op (world s)) as [[e|v] w]; simpl;
    repeat constructor; apply HP.
Qed.

Lemma emits_silent {A} P (m : M A) : (forall s, trace_of (m s) = []) -> emits P m.
Proof. intros Hm s. rewrite Hm. constructor. Qed.

Lemma emits_field {A} P (l : loc) (proj : Account.t -> A) : emits P (field l proj).
Proof. apply emits_silent. intros s. unfold field. by destruct (heap s !! l). Qed.








(** ** The stored client handle stays *)

Definition keeps_client {A} (m : M A) : Prop :=
  forall s c,
    Service.client (this s) = Some c ->
    Service.client (this (state_of (m s))) = Some c.

Lemma keeps_client_bind {A B} (m : M A) (f : A -> M B) :
  keeps_client m -> (forall a, keeps_client (f a)) -> keeps_client (bind m f).
Proof.
  intros Hm Hf s c Hc. specialize (Hm s c Hc). unfold bind.
  destruct (m s) as [[[a|e] s1] t1]; simpl in *; [ | exact Hm].
  specialize (Hf a s1 c Hm). by destruct (f a s1) as [[o2 s2] t2].
Qed.

Lemma keeps_client_rethrow {A} (m : M A) : keeps_client m -> keeps_client (rethrow m).
Proof. intros Hm s c. rewrite rethrow_eq. apply Hm. Qed.

Lemma keeps_client_call (op : sdk_op) : keeps_client (call op).
Proof.
  intros s c Hc. unfold call. by destruct (sdk op (world s)) as [[e|v] w].
Qed.

Lemma keeps_client_field {A} (l : loc) (proj : Account.t -> A) : keeps_client (field l proj).
Proof. intros s c Hc. unfold field. by destruct (heap s !! l). Qed.

Lemma keeps_client_getClient : keeps_client getClient.
Proof. intros s c Hc. by rewrite (getClient_stored s c Hc). Qed.

Lemma keeps_client_try_catch {A} (m : M A) (h : Error -> M A) :
  keeps_client m -> (forall e, keeps_client (h e)) -> keeps_client (try_catch m h).
Proof.
  intros Hm Hh s c Hc. specialize (Hm s c Hc). unfold try_catch.
  destruct (m s) as [[[a|e] s1] t1]; simpl in *; [exact Hm | ].
  specialize (Hh e s1 c Hm). by destruct (h e s1) as [[o2 s2] t2].
Qed.

Lemma keeps_client_lift {A} (r : Error + A) : keeps_client (lift r).
Proof. destruct r; by intros s c Hc. Qed.

Ltac keeps_client_steps :=
  repeat first
    [ apply keeps_client_getClient
    | assumption
    | apply keeps_client_rethrow
    | apply keeps_client_try_catch; [ | intros ? ]
    | apply keeps_client_bind; [ | intros ? ]
    | apply keeps_client_call
    | apply keeps_client_field
    | apply keeps_client_lift
    | solve [ unfold keeps_client; intros ? ? ?; assumption ]
    | match goal with |- keeps_client (match ?x with _ => _ end) => destruct x end
    | match goal with |- keeps_client (if ?b then _ else _) => destruct b end ].

Lemma keeps_client_createAccount b : keeps_client (createAccount b).
Proof. unfold createAccount. keeps_client_steps. Qed.

Lemma keeps_client_createNFTToken l cfg : keeps_client (createNFTToken l cfg).
Proof. unfold createNFTToken. keeps_client_steps. Qed.

Lemma keeps_client_mintNFTs tok md : keeps_client (mintNFTs tok md).
Proof. unfold mintNFTs. keeps_client_steps. Qed.

Lemma keeps_client_getTokenBasicInfo id : keeps_client (getTokenBasicInfo id).
Proof. unfold getTokenBasicInfo. keeps_client_steps. Qed.

Lemma keeps_client_associateTokenToAccount l id :
  keeps_client (associateTokenToAccount l id).
Proof. unfold associateTokenToAccount. keeps_client_steps. Qed.

Lemma keeps_client_getAccountBalance a : keeps_client (getAccountBalance a).
Proof. unfold getAccountBalance. keeps_client_steps. Qed.

Lemma keeps_client_transferNFT id l1 l2 n : keeps_client (transferNFT id l1 l2 n).
Proof. unfold transferNFT. keeps_client_steps. Qed.

Lemma keeps_client_transferNFTWithBalanceCheck id l1 l2 n :
  keeps_client (transferNFTWithBalanceCheck id l1 l2 n).
Proof.
  unfold transferNFTWithBalanceCheck, associate_if_needed.
  pose proof keeps_client_getAccountBalance. pose proof keeps_client_transferNFT.
  pose proof keeps_client_associateTokenToAccount. keeps_client_steps.
Qed.

Lemma keeps_client_createCompleteNFTCollection cfg md b :
  keeps_client (createCompleteNFTCollection cfg md b).
Proof.
  unfold createCompleteNFTCollection.
  pose proof keeps_client_createAccount. pose proof keeps_client_createNFTToken.
  pose proof keeps_client_mintNFTs. keeps_client_steps.
Qed.


(** ** The tolerance of the transfer workflow *)



(** ** The constructor *)

Definition unset_or_empty (x : option string) : Prop := x = None \/ x = Some "".

Lemma falsy_spec (x : option string) : falsy x = true <-> unset_or_empty x.
Proof.
  unfold unset_or_empty. destruct x as [[|a x]|]; simpl; split; intros H; try done.
  - by right.
  - by destruct H.
  - by left.
Qed.

Lemma constructor_silent (env : gmap string string) (s : state W) :
  trace_of (constructor env s) = [].
Proof.
  unfold constructor, bind, set_this, get_this. simpl.
  by destruct (falsy (env !! "OPERATOR_KEY") || falsy (env !! "OPERATOR_ID")).
Qed.

Definition missing_credentials : Error :=
  mkError "Error" "Please set OPERATOR_ID and OPERATOR_KEY in your .env file".

(** C9. The constructor makes no SDK call and leaves the client field null.
    It throws when OPERATOR_ID or OPERATOR_KEY is unset or empty; when both
    are set and not empty it returns, with the two credentials stored. *)
Theorem constructor_needs_credentials (env : gmap string string) (s : state W) :
  let run := constructor env s in
  trace_of run = [] /\
  Service.client (this (state_of run)) = None /\
  (unset_or_empty (env !! "OPERATOR_ID") \/ unset_or_empty (env !! "OPERATOR_KEY") ->
   outcome_of run = Throw missing_credentials) /\
  (forall id key,
      env !! "OPERATOR_ID" = Some id -> id <> "" ->
      env !! "OPERATOR_KEY" = Some key -> key <> "" ->
      outcome_of run = Ok tt /\
      this (state_of run) = Service.mk (Some id) (Some key) None).
Proof.
  unfold constructor, bind, set_this, get_this. simpl.
  destruct (falsy (env !! "OPERATOR_KEY") || falsy (env !! "OPERATOR_ID")) eqn:Hf; simpl.
  - split; [done | ]. split; [done | ]. split; [done | ].
    intros id key Hid Hne Hkey Hne'. rewrite Hid, Hkey in Hf.
    destruct id, key; simpl in Hf; congruence.
  - apply orb_false_elim in Hf as [Hk Hi].
    split; [done | ]. split; [done | ]. split.
    + intros [H|H]; apply falsy_spec in H; congruence.
    + intros id key Hid _ Hkey _. by rewrite Hid, Hkey.
Qed.

(** ** The client handle *)

(** The run has left the handle [c] stored. *)
Definition client_kept (c : Client) {A} (run : outcome A * state W * list event) : Prop :=
  Service.client (this (state_of run)) = Some c.

(** C6. The service stores at most one client handle, in its [client]
    field.  [getClient] returns a stored handle as it is, with no SDK call
    and no change of state.  With no handle stored it constructs a client,
    stores it and configures it, in four calls; once it has returned, the
    next call returns that same handle, and no method but [close] replaces
    or drops a stored handle, whether it returns or throws.  [close] closes
    the stored handle and, when that call returns, resets the field to null,
    after which the first call of [getClient] constructs a client again; with
    no handle stored [close] does nothing. *)
Theorem single_client_handle (s : state W) :
  (forall c, Service.client (this s) = Some c -> getClient s = (Ok c, s, [])) /\
  (Service.client (this s) = None ->
   match getClient s with
   | (Ok c, s', t) =>
       t = [ Ev ClientForTestnet (inr c);
             Ev (ClientSetOperator c (Service.operatorId (this s))
                   (Service.operatorKey (this s))) (inr tt);
             Ev (ClientSetDefaultMaxTransactionFee c (mkHbar 50)) (inr tt);
             Ev (ClientSetDefaultMaxQueryPayment c (mkHbar 30)) (inr tt) ] /\
       Service.client (this s') = Some c /\
       getClient s' = (Ok c, s', [])
   | (Throw e, s', t) =>
       (exists r rest, t = Ev ClientForTestnet r :: rest) /\ ~ Forall ev_ok t
   end) /\
  (forall c, Service.client (this s) = Some c ->
   match close s with
   | (Ok _, s', t) =>
       t = [ Ev (ClientClose c) (inr tt) ] /\
       Service.client (this s') = None /\
       exists r rest, trace_of (getClient s') = Ev ClientForTestnet r :: rest
   | (Throw e, s', t) =>
       t = [ Ev (ClientClose c) (inl e) ] /\ Service.client (this s') = Some c
   end) /\
  (Service.client (this s) = None -> close s = (Ok tt, s, [])) /\
  (forall c, Service.client (this s) = Some c ->
   (forall b, client_kept c (createAccount b s)) /\
   (forall l cfg, client_kept c (createNFTToken l cfg s)) /\
   (forall tok md, client_kept c (mintNFTs tok md s)) /\
   (forall id, client_kept c (getTokenBasicInfo id s)) /\
   (forall l id, client_kept c (associateTokenToAccount l id s)) /\
   (forall a, client_kept c (getAccountBalance a s)) /\
   (forall id l1 l2 n, client_kept c (transferNFT id l1 l2 n s)) /\
   (forall id l1 l2 n, client_kept c (transferNFTWithBalanceCheck id l1 l2 n s)) /\
   (forall cfg md b, client_kept c (createCompleteNFTCollection cfg md b s))).
Proof.
  split; [apply getClient_stored | ].
  assert (forall c, Service.client (this s) = Some c ->
           (forall b, client_kept c (createAccount b s)) /\
           (forall l cfg, client_kept c (createNFTToken l cfg s)) /\
           (forall tok md, client_kept c (mintNFTs tok md s)) /\
           (forall id, client_kept c (getTokenBasicInfo id s)) /\
           (forall l id, client_kept c (associateTokenToAccount l id s)) /\
           (forall a, client_kept c (getAccountBalance a s)) /\
           (forall id l1 l2 n, client_kept c (transferNFT id l1 l2 n s)) /\
           (forall id l1 l2 n, client_kept c (transferNFTWithBalanceCheck id l1 l2 n s)) /\
           (forall cfg md b, client_kept c (createCompleteNFTCollection cfg md b s)))
    as Hkept.
  { intros c Hc. unfold client_kept.
    split; [intros; by apply keeps_client_createAccount | ].
    split; [intros; by apply keeps_client_createNFTToken | ].
    split; [intros; by apply keeps_client_mintNFTs | ].
    split; [intros; by apply keeps_client_getTokenBasicInfo | ].
    split; [intros; by apply keeps_client_associateTokenToAccount | ].
    split; [intros; by apply keeps_client_getAccountBalance | ].
    split; [intros; by apply keeps_client_transferNFT | ].
    split; [intros; by apply keeps_client_transferNFTWithBalanceCheck | ].
    intros; by apply keeps_client_createCompleteNFTCollection. }
  destruct s as [[id key stored] h w]; simpl.
  split; [ | split; [ | split; [ | exact Hkept]]].
  - intros ->. unfold getClient, bind, get_this, set_client, call, ret. simpl.
    destruct (sdk ClientForTestnet w) as [[e|c] w0]; simpl.
    { split; [by eexists _, _ | refute_all_ok]. }
    destruct (sdk _ w0) as [[e|[]] w1]; simpl.
    { split; [by eexists _, _ | refute_all_ok]. }
    destruct (sdk _ w1) as [[e|[]] w2]; simpl.
    { split; [by eexists _, _ | refute_all_ok]. }
    destruct (sdk _ w2) as [[e|[]] w3]; simpl.
    { split; [by eexists _, _ | refute_all_ok]. }
    done.
  - intros c ->. unfold close, bind, get_this, set_client, call, ret. simpl.
    destruct (sdk (ClientClose c) w) as [[e|[]] w0]; simpl; [done | ].
    repeat split.
    unfold getClient. erewrite bind_ok_trace by reflexivity. simpl.
    match goal with |- context [bind ?m ?f ?st] =>
      destruct (bind_trace_prefix m f st) as [rest Hrest];
      destruct (call_trace ClientForTestnet st) as [r Hr] end.
    exists r, rest. etrans; [exact Hrest | ]. by rewrite Hr.
  - intros ->. reflexivity.
Qed.

(** ** The script *)

(** A computation that never returns: it throws on every run. *)
Definition never_returns {A} (m : M A) : Prop :=
  forall s, exists e, outcome_of (m s) = Throw e.

Lemma never_returns_throw {A} (e : Error) : never_returns (@throw A e).
Proof. intros s. by exists e. Qed.

Lemma never_returns_bind_l {A B} (m : M A) (f : A -> M B) :
  never_returns m -> never_returns (bind m f).
Proof.
  intros Hm s. destruct (Hm s) as [e He]. unfold bind.
  destruct (m s) as [[[a|e'] s1] t1]; simpl in *; [discriminate | by exists e'].
Qed.

Lemma never_returns_bind_r {A B} (m : M A) (f : A -> M B) :
  (forall a, never_returns (f a)) -> never_returns (bind m f).
Proof.
  intros Hf s. unfold bind.
  destruct (m s) as [[[a|e'] s1] t1]; simpl; [ | by exists e'].
  destruct (Hf a s1) as [e He]. destruct (f a s1) as [[o s2] t2]. by exists e.
Qed.

Lemma main_try_never_returns info cids : never_returns (main_try info cids).
Proof.
  unfold main_try.
  do 10 (apply never_returns_bind_r; intros ?).
  apply never_returns_bind_l, never_returns_throw.
Qed.

(** A call that is neither a balance query nor a call on a transfer
    transaction: a call of the steps of [main] before step 4. *)
Definition before_step_4 (ev : event) : Prop :=
  (kind (ev_op ev)).1 <> KBalanceQuery /\ (kind (ev_op ev)).2 <> Some KTransfer.

Lemma emits_bind_stuck {A B} P (m : M A) (f : A -> M B) :
  never_returns m -> emits P m -> emits P (bind m f).
Proof.
  intros Hnever Hm s. specialize (Hm s). destruct (Hnever s) as [e He]. unfold bind.
  destruct (m s) as [[[a|e'] s1] t1]; simpl in *; [discriminate | exact Hm].
Qed.

Lemma emits_lift {A} P (r : Error + A) : emits P (lift r).
Proof. destruct r; by apply emits_silent. Qed.

Lemma emits_strict {A} P (x : option A) : emits P (strict x).
Proof. destruct x; by apply emits_silent. Qed.

Ltac early_steps :=
  repeat first
    [ assumption
    | apply emits_lift
    | apply emits_strict
    | apply emits_rethrow
    | apply emits_bind; [ | intros ? ]
    | apply emits_field
    | apply emits_call; intros ?; split; simpl; discriminate
    | solve [ apply emits_silent; intros ?; reflexivity ]
    | match goal with |- emits _ (match ?x with _ => _ end) => destruct x end
    | match goal with |- emits _ (if ?b then _ else _) => destruct b end ].

Lemma getClient_early : emits before_step_4 getClient.
Proof. unfold getClient. early_steps. Qed.

Lemma close_early : emits before_step_4 close.
Proof. unfold close. early_steps. Qed.

Lemma createAccount_early b : emits before_step_4 (createAccount b).
Proof. unfold createAccount. pose proof getClient_early. early_steps. Qed.

Lemma createNFTToken_early l cfg : emits before_step_4 (createNFTToken l cfg).
Proof. unfold createNFTToken. pose proof getClient_early. early_steps. Qed.

Lemma mintNFTs_early tok md : emits before_step_4 (mintNFTs tok md).
Proof. unfold mintNFTs. pose proof getClient_early. early_steps. Qed.

Lemma main_try_early info cids : emits before_step_4 (main_try info cids).
Proof.
  unfold main_try.
  pose proof createAccount_early. pose proof createNFTToken_early.
  pose proof mintNFTs_early.
  do 10 (apply emits_bind; [early_steps | intros ?]).
  apply emits_bind_stuck; [apply never_returns_throw | ].
  apply emits_silent. reflexivity.
Qed.

(** On every ledger and in every environment, [main] stays within the steps
    before step 4: it makes no balance query and no call on a transfer
    transaction. *)
Lemma main_never_reaches_step_4 info cids env (s : state W) :
  Forall before_step_4 (trace_of (main info cids env s)).
Proof.
  unfold main, bind.
  destruct (constructor env s) as [[[[]|e] s1] t1] eqn:Hc.
  - assert (t1 = []) as ->.
    { pose proof (constructor_silent env s) as Ht. by rewrite Hc in Ht. }
    unfold try_finally, try_catch. pose proof (main_try_early info cids s1) as Htry.
    pose proof (close_early) as Hclose.
    destruct (main_try info cids s1) as [[[r|e] s2] t2]; simpl in *.
    + specialize (Hclose s2). destruct (close s2) as [[[[]|e] s3] t3]; simpl in *;
        by apply Forall_app.
    + rewrite app_nil_r. specialize (Hclose s2).
      destruct (close s2) as [[[[]|e'] s3] t3]; simpl in *; by apply Forall_app.
  - pose proof (constructor_silent env s) as Ht.
    rewrite Hc in Ht. simpl in *. by subst.
Qed.

(** Whatever the ledger answers, [main] does not return its record: its try
    block always throws, at the latest on the unbound [alice], and the catch
    block makes [main] return [undefined]. *)
Lemma main_never_returns_record info cids env (s : state W) (r : MainResult.t) :
  outcome_of (main info cids env s) <> Ok (Some r).
Proof.
  unfold main. unfold bind at 1.
  destruct (constructor env s) as [[[[]|e] s1] t1]; simpl; [ | discriminate].
  unfold try_finally, try_catch.
  destruct (main_try_never_returns info cids s1) as [e He].
  destruct (main_try info cids s1) as [[[r'|e'] s2] t2]; simpl in *; [discriminate | ].
  destruct (close s2) as [[[[]|e''] s3] t3]; simpl; discriminate.
Qed.


(** ** Transactions executed and queries made *)

(** The transactions a run has executed, in order. *)
Definition executed (t : list event) : list Transaction :=
  omap (fun ev => match ev_op ev with Execute tx _ => Some tx | _ => None end) t.

(** The token ids a run has queried the info of, in order. *)
Definition info_queries (t : list event) : list (option TokenId) :=
  omap (fun ev => match ev_op ev with TokenInfoQuery id _ => Some id | _ => None end) t.

Lemma executed_app (t1 t2 : list event) : executed (t1 ++ t2) = executed t1 ++ executed t2.
Proof. apply omap_app. Qed.

Lemma info_queries_app (t1 t2 : list event) :
  info_queries (t1 ++ t2) = info_queries t1 ++ info_queries t2.
Proof. apply omap_app. Qed.

Lemma executed_client_setup srv c : executed (client_setup srv c) = [].
Proof. unfold client_setup. by destruct (Service.client srv). Qed.

Lemma info_queries_client_setup srv c : info_queries (client_setup srv c) = [].
Proof. unfold client_setup. by destruct (Service.client srv). Qed.

Lemma executed_submitted tx signers c response receipt :
  executed (submitted tx signers c response receipt) = [tx].
Proof.
  unfold submitted, executed. simpl. rewrite omap_app. simpl.
  induction signers as [|k signers IH]; simpl; [reflexivity | exact IH].
Qed.

Lemma info_queries_submitted tx signers c response receipt :
  info_queries (submitted tx signers c response receipt) = [].
Proof.
  unfold submitted, info_queries. simpl. rewrite omap_app. simpl.
  induction signers as [|k signers IH]; simpl; [reflexivity | exact IH].
Qed.

(** ** Token creation *)

(** C7. When its SDK calls succeed, [createNFTToken] returns after exactly
    one executed transaction, the token creation, followed by exactly one
    token-info query, for the token id of the receipt.  The record it returns
    takes [tokenId] and [status] from the receipt, the name, symbol, type,
    supply and treasury fields from the answer of the query, whatever the
    [tokenConfig] of the caller, and keeps the caller's reference to the
    treasury account. *)
Theorem createNFTToken_record treasuryAccount tokenConfig (s : state W)
    (treasury : Account.t) :
  let run := createNFTToken treasuryAccount tokenConfig s in
  heap s !! treasuryAccount = Some treasury ->
  Forall ev_ok (trace_of run) ->
  exists c response receipt info,
    trace_of run
    = client_setup (this s) c
      ++ submitted (token_create_tx tokenConfig treasury)
           [Account.privateKey treasury] c response receipt
      ++ [ Ev (TokenInfoQuery (Receipt.tokenId receipt) c) (inr info) ] /\
    executed (trace_of run) = [token_create_tx tokenConfig treasury] /\
    info_queries (trace_of run) = [Receipt.tokenId receipt] /\
    outcome_of run
    = Ok (Token.mk (Receipt.tokenId receipt) (Receipt.status receipt)
            (TokenInfo.name info) (TokenInfo.symbol info) (TokenInfo.tokenType info)
            (TokenInfo.decimals info) (TokenInfo.totalSupply info)
            (TokenInfo.maxSupply info) (TokenInfo.supplyType info)
            (TokenInfo.treasuryAccountId info) (TokenInfo.supplyKey info)
            (TokenInfo.creationTime info) treasuryAccount).
Proof.
  intros run Htreasury Hok. subst run.
  pose proof (createNFTToken_run treasuryAccount tokenConfig s) as Hrun.
  destruct (createNFTToken treasuryAccount tokenConfig s) as [[[token|e] s'] t];
    cbn [trace_of outcome_of] in *.
  - destruct Hrun as (c & treasury' & response & receipt & info & Ht & -> & -> & _).
    assert (treasury' = treasury) as -> by congruence.
    exists c, response, receipt, info.
    rewrite !executed_app, !info_queries_app, executed_client_setup,
      info_queries_client_setup, executed_submitted, info_queries_submitted.
    done.
  - destruct Hrun as [Hbad|Hnone]; [done | congruence].
Qed.

(** ** Minting *)




Lemma metadataBuffers_throws (metadatas : list jsval) :
  JUndefined ∈ metadatas -> exists e, metadataBuffers metadatas = inl e.
Proof.
  induction metadatas as [|m l IH]; [by intros ?%elem_of_nil | ].
  intros [<-|Hin]%elem_of_cons; simpl; [by eexists | ].
  destruct (Buffer_from_js (metadataString m)); [by eexists | ].
  destruct (IH Hin) as [e ->]. by eexists.
Qed.





(** ** The workflows, step by step *)

Lemma bind_inv {A B} (m : M A) (f : A -> M B) (s s' : state W) (b : B) (t : list event) :
  bind m f s = (Ok b, s', t) ->
  exists a s1 t1 t2, m s = (Ok a, s1, t1) /\ f a s1 = (Ok b, s', t2) /\ t = t1 ++ t2.
Proof.
  unfold bind. destruct (m s) as [[[a|e] s1] t1]; [ | discriminate].
  destruct (f a s1) as [[o s2] t2] eqn:Hf. intros [= -> -> <-].
  by exists a, s1, t1, t2.
Qed.

Lemma field_inv {A} (l : loc) (proj : Account.t -> A) (s s' : state W) (x : A)
    (t : list event) :
  field l proj s = (Ok x, s', t) ->
  exists a, heap s !! l = Some a /\ x = proj a /\ s' = s /\ t = [].
Proof.
  unfold field. destruct (heap s !! l) as [a|]; [ | discriminate].
  intros [= <- <- <-]. by exists a.
Qed.

Lemma ret_inv {A} (a b : A) (s s' : state W) (t : list event) :
  ret a s = (Ok b, s', t) -> b = a /\ s' = s /\ t = [].
Proof. unfold ret. by intros [= <- <- <-]. Qed.

(** A run of [transferNFTWithBalanceCheck] that returns went through its six
    steps, and its record is made of what the steps returned, of the
    arguments, and of the comparison of the transfer status with SUCCESS. *)
Lemma transferNFTWithBalanceCheck_inv tokenId fromAccount toAccount serialNumber
    (s s' : state W) (result : TransferCheck.t) (t : list event) :
  transferNFTWithBalanceCheck tokenId fromAccount toAccount serialNumber s
  = (Ok result, s', t) ->
  exists s1 s2 s3 s4 s5 t1 t2 t3 t4 t5 t6 b1 b2 transferResult b3 b4 sender receiver,
    getAccountBalance (inr fromAccount) s = (Ok b1, s1, t1) /\
    getAccountBalance (inr toAccount) s1 = (Ok b2, s2, t2) /\
    associate_if_needed toAccount tokenId s2 = (Ok tt, s3, t3) /\
    transferNFT tokenId fromAccount toAccount serialNumber s3
    = (Ok transferResult, s4, t4) /\
    getAccountBalance (inr fromAccount) s4 = (Ok b3, s5, t5) /\
    getAccountBalance (inr toAccount) s5 = (Ok b4, s', t6) /\
    heap s' !! fromAccount = Some sender /\
    heap s' !! toAccount = Some receiver /\
    t = t1 ++ t2 ++ t3 ++ t4 ++ t5 ++ t6 /\
    result = TransferCheck.mk transferResult
               (TransferCheck.mkBalances b1 b2) (TransferCheck.mkBalances b3 b4)
               (TransferCheck.mkSummary (toString <$> tokenId) serialNumber
                  (toString <$> Account.accountId sender)
                  (toString <$> Account.accountId receiver)
                  (is_success (Transfer.status transferResult))).
Proof.
  unfold transferNFTWithBalanceCheck. rewrite rethrow_eq. intros H.
  apply bind_inv in H as (b1 & s1 & t1 & r1 & H1 & H & ->).
  apply bind_inv in H as (b2 & s2 & t2 & r2 & H2 & H & ->).
  apply bind_inv in H as ([] & s3 & t3 & r3 & H3 & H & ->).
  apply bind_inv in H as (tr & s4 & t4 & r4 & H4 & H & ->).
  apply bind_inv in H as (b3 & s5 & t5 & r5 & H5 & H & ->).
  apply bind_inv in H as (b4 & s6 & t6 & r6 & H6 & H & ->).
  apply bind_inv in H as (fromId & s7 & t7 & r7 & H7 & H & ->).
  apply bind_inv in H as (toId & s8 & t8 & r8 & H8 & H & ->).
  apply field_inv in H7 as (sender & Hfrom & -> & -> & ->).
  apply field_inv in H8 as (receiver & Hto & -> & -> & ->).
  apply ret_inv in H as (-> & -> & ->).
  exists s1, s2, s3, s4, s5, t1, t2, t3, t4, t5, t6, b1, b2, tr, b3, b4, sender, receiver.
  repeat split; try assumption. by rewrite !app_nil_r.
Qed.

(** A run of [createCompleteNFTCollection] that returns went through its
    steps; it minted exactly when the metadata list is not empty. *)
Lemma createCompleteNFTCollection_inv tokenConfig metadataArray initialBalance
    (s s' : state W) (result : Collection.t) (t : list event) :
  createCompleteNFTCollection tokenConfig metadataArray initialBalance s
  = (Ok result, s', t) ->
  exists s1 s2 t1 t2 t3 account tokenData mintResult holder,
    createAccount (Some (default 100 initialBalance)) s = (Ok account, s1, t1) /\
    createNFTToken account (Some (default TokenConfig.empty tokenConfig)) s1
    = (Ok tokenData, s2, t2) /\
    match default [] metadataArray with
    | [] => mintResult = None /\ s' = s2 /\ t3 = []
    | _ :: _ =>
        exists r, mintResult = Some r /\
                  mintNFTs tokenData (JArr (default [] metadataArray)) s2 = (Ok r, s', t3)
    end /\
    heap s' !! account = Some holder /\
    t = t1 ++ t2 ++ t3 /\
    result = Collection.mk account tokenData mintResult
               (Collection.mkSummary
                  (toString <$> Account.accountId holder)
                  (toString <$> Token.tokenId tokenData)
                  (default 0 (MintResult.count <$> mintResult))
                  (default [] (mintResult ≫= fun r => map toString <$> MintResult.serials r))).
Proof.
  unfold createCompleteNFTCollection. rewrite rethrow_eq. intros H.
  apply bind_inv in H as (account & s1 & t1 & r1 & H1 & H & ->).
  apply bind_inv in H as (tokenData & s2 & t2 & r2 & H2 & H & ->).
  apply bind_inv in H as (mintResult & s3 & t3 & r3 & H3 & H & ->).
  apply bind_inv in H as (accountId & s4 & t4 & r4 & H4 & H & ->).
  apply field_inv in H4 as (holder & Hholder & -> & -> & ->).
  apply ret_inv in H as (-> & -> & ->).
  exists s1, s2, t1, t2, t3, account, tokenData, mintResult, holder.
  repeat split; try assumption; [ | by rewrite !app_nil_r].
  destruct (default [] metadataArray) as [|m l]; simpl in H3.
  - by apply ret_inv in H3 as (-> & -> & ->).
  - apply bind_inv in H3 as (r & s5 & t5 & r5 & H3 & Hret & ->).
    apply ret_inv in Hret as (-> & -> & ->).
    exists r. by rewrite app_nil_r.
Qed.


(** ** The kinds of the calls of a run *)

Definition setup_kinds (srv : Service.t) : list (op_kind * option tx_kind) :=
  match Service.client srv with
  | Some _ => []
  | None => [ (KForTestnet, None); (KSetOperator, None);
              (KSetMaxFee, None); (KSetMaxPayment, None) ]
  end.

(** Freeze, [signers] signatures, execute, receipt. *)
Definition submit_kinds (k : tx_kind) (signers : nat) : list (op_kind * option tx_kind) :=
  (KFreeze, Some k) :: replicate signers (KSign, Some k)
  ++ [ (KExecute, Some k); (KGetReceipt, None) ].

Definition createAccount_kinds : list (op_kind * option tx_kind) :=
  [ (KGenerateKey, None); (KExecute, Some KAccountCreate); (KGetReceipt, None) ].

Definition createNFTToken_kinds : list (op_kind * option tx_kind) :=
  submit_kinds KTokenCreate 1 ++ [ (KTokenInfoQuery, None) ].

Definition balance_kinds : list (op_kind * option tx_kind) := [ (KBalanceQuery, None) ].


Lemma kinds_app (t1 t2 : list event) : kinds (t1 ++ t2) = kinds t1 ++ kinds t2.
Proof. apply map_app. Qed.




Ltac use_run H :=
  let R := fresh "R" in
  lazymatch type of H with
  | createAccount ?b ?s = _ => pose proof (createAccount_run b s) as R
  | createNFTToken ?l ?cfg ?s = _ => pose proof (createNFTToken_run l cfg s) as R
  | mintNFTs ?tok ?md ?s = _ => pose proof (mintNFTs_run tok md s) as R
  | getTokenBasicInfo ?id ?s = _ => pose proof (getTokenBasicInfo_run id s) as R
  | associateTokenToAccount ?l ?id ?s = _ =>
      pose proof (associateTokenToAccount_run l id s) as R
  | getAccountBalance ?a ?s = _ => pose proof (getAccountBalance_run a s) as R
  | transferNFT ?id ?l1 ?l2 ?n ?s = _ => pose proof (transferNFT_run id l1 l2 n s) as R
  end;
  rewrite H in R.













(** ** Where the fields of the returned records come from *)

Ltac in_trace :=
  apply elem_of_app; right; unfold submitted; simpl;
  repeat first [ apply list_elem_of_here | apply list_elem_of_further ].

(** C5, amended.  Every field of a record that a method returns is one of:
    an answer of the SDK in that run (a field of a receipt or of a query
    answer, the generated key), as it is or as the string [toString] makes of
    it; an argument of the call, or a field of an account or token argument,
    passed through ([balance], [tokenId], [serialNumber], [treasuryAccount],
    the account ids); the local clock ([mintedAt], [associatedAt],
    [transferredAt]); or a value the service computes itself from these
    ([count] and [nftCount], the keyed [tokens] map, the [serials] strings,
    and [success], the comparison of the status text with SUCCESS). *)
Theorem returned_fields_provenance (s s' : state W) (t : list event) :
  (forall initialBalance account,
      createAccount initialBalance s = (Ok account, s', t) ->
      exists c key response receipt,
        Ev PrivateKeyGenerateED25519 (inr key) ∈ t /\
        Ev (GetReceipt response c) (inr receipt) ∈ t /\
        heap s' !! account
        = Some (Account.mk (Receipt.accountId receipt) key (publicKey key)
                  (Receipt.status receipt) (default 100 initialBalance))) /\
  (forall treasuryAccount tokenConfig token,
      createNFTToken treasuryAccount tokenConfig s = (Ok token, s', t) ->
      exists c response receipt info,
        Ev (GetReceipt response c) (inr receipt) ∈ t /\
        Ev (TokenInfoQuery (Receipt.tokenId receipt) c) (inr info) ∈ t /\
        token = Token.mk (Receipt.tokenId receipt) (Receipt.status receipt)
                  (TokenInfo.name info) (TokenInfo.symbol info) (TokenInfo.tokenType info)
                  (TokenInfo.decimals info) (TokenInfo.totalSupply info)
                  (TokenInfo.maxSupply info) (TokenInfo.supplyType info)
                  (TokenInfo.treasuryAccountId info) (TokenInfo.supplyKey info)
                  (TokenInfo.creationTime info) treasuryAccount) /\
  (forall tokenData metadataArray result,
      mintNFTs tokenData metadataArray s = (Ok result, s', t) ->
      exists c response receipt,
        Ev (GetReceipt response c) (inr receipt) ∈ t /\
        result = MintResult.mk (Receipt.serials receipt) (Receipt.status receipt)
                   (Token.tokenId tokenData) (count_of (Receipt.serials receipt))
                   (now (world s'))) /\
  (forall tokenId result,
      getTokenBasicInfo tokenId s = (Ok result, s', t) ->
      exists c info,
        Ev (TokenInfoQuery tokenId c) (inr info) ∈ t /\
        result = TokenBasicInfo.mk
                   (toString <$> TokenInfo.tokenId info)
                   (TokenInfo.name info) (TokenInfo.symbol info)
                   (toString <$> TokenInfo.tokenType info)
                   (toString <$> TokenInfo.totalSupply info)
                   (toString <$> TokenInfo.maxSupply info)
                   (toString <$> TokenInfo.treasuryAccountId info)) /\
  (forall account tokenId result,
      associateTokenToAccount account tokenId s = (Ok result, s', t) ->
      exists c response receipt holder,
        heap s !! account = Some holder /\
        Ev (GetReceipt response c) (inr receipt) ∈ t /\
        result = Association.mk (Receipt.status receipt) (Account.accountId holder)
                   tokenId (now (world s'))) /\
  (forall account result,
      getAccountBalance account s = (Ok result, s', t) ->
      exists c ref balance,
        account_ref (heap s) account = Some ref /\
        Ev (AccountBalanceQuery ref c) (inr balance) ∈ t /\
        result = Balance.mk (AccountRef_toString ref)
                   (toString <$> AccountBalance.hbars balance)
                   (readable_tokens (AccountBalance.tokens balance))) /\
  (forall tokenId fromAccount toAccount serialNumber result,
      transferNFT tokenId fromAccount toAccount serialNumber s = (Ok result, s', t) ->
      exists c response receipt sender receiver,
        heap s !! fromAccount = Some sender /\
        heap s !! toAccount = Some receiver /\
        Ev (GetReceipt response c) (inr receipt) ∈ t /\
        result = Transfer.mk (Receipt.status receipt) tokenId serialNumber
                   (toString <$> Account.accountId sender)
                   (toString <$> Account.accountId receiver)
                   (now (world s'))) /\
  (forall tokenId fromAccount toAccount serialNumber result,
      transferNFTWithBalanceCheck tokenId fromAccount toAccount serialNumber s
      = (Ok result, s', t) ->
      exists s1 s2 s3 s4 s5 t1 t2 t3 t4 t5 t6 b1 b2 transferResult b3 b4 sender receiver,
        getAccountBalance (inr fromAccount) s = (Ok b1, s1, t1) /\
        getAccountBalance (inr toAccount) s1 = (Ok b2, s2, t2) /\
        associate_if_needed toAccount tokenId s2 = (Ok tt, s3, t3) /\
        transferNFT tokenId fromAccount toAccount serialNumber s3
        = (Ok transferResult, s4, t4) /\
        getAccountBalance (inr fromAccount) s4 = (Ok b3, s5, t5) /\
        getAccountBalance (inr toAccount) s5 = (Ok b4, s', t6) /\
        heap s' !! fromAccount = Some sender /\
        heap s' !! toAccount = Some receiver /\
        t = t1 ++ t2 ++ t3 ++ t4 ++ t5 ++ t6 /\
        result = TransferCheck.mk transferResult
                   (TransferCheck.mkBalances b1 b2) (TransferCheck.mkBalances b3 b4)
                   (TransferCheck.mkSummary (toString <$> tokenId) serialNumber
                      (toString <$> Account.accountId sender)
                      (toString <$> Account.accountId receiver)
                      (is_success (Transfer.status transferResult)))) /\
  (forall tokenConfig metadataArray initialBalance result,
      createCompleteNFTCollection tokenConfig metadataArray initialBalance s
      = (Ok result, s', t) ->
      exists s1 s2 t1 t2 t3 account tokenData mintResult holder,
        createAccount (Some (default 100 initialBalance)) s = (Ok account, s1, t1) /\
        createNFTToken account (Some (default TokenConfig.empty tokenConfig)) s1
        = (Ok tokenData, s2, t2) /\
        match default [] metadataArray with
        | [] => mintResult = None /\ s' = s2 /\ t3 = []
        | _ :: _ =>
            exists r, mintResult = Some r /\
                      mintNFTs tokenData (JArr (default [] metadataArray)) s2
                      = (Ok r, s', t3)
        end /\
        heap s' !! account = Some holder /\
        t = t1 ++ t2 ++ t3 /\
        result = Collection.mk account tokenData mintResult
                   (Collection.mkSummary
                      (toString <$> Account.accountId holder)
                      (toString <$> Token.tokenId tokenData)
                      (default 0 (MintResult.count <$> mintResult))
                      (default []
                         (mintResult ≫= fun r => map toString <$> MintResult.serials r)))).
Proof.
  repeat match goal with |- _ /\ _ => split end; intros.
  - use_run H. destruct R as (c & key & response & receipt & -> & -> & Hheap & _).
    exists c, key, response, receipt.
    split; [in_trace | ]. split; [in_trace | ].
    rewrite Hheap. by rewrite lookup_app_r, Nat.sub_diag.
  - use_run H. destruct R as (c & a & response & receipt & info & _ & -> & -> & _).
    exists c, response, receipt, info.
    split; [in_trace | ]. split; [ | reflexivity].
    apply elem_of_app; right. apply elem_of_app; right. apply list_elem_of_here.
  - use_run H. destruct R as (c & bs & a & response & receipt & _ & _ & -> & -> & _).
    exists c, response, receipt. split; [in_trace | reflexivity].
  - use_run H. destruct R as (c & info & -> & -> & _).
    exists c, info. split; [in_trace | reflexivity].
  - use_run H. destruct R as (c & a & response & receipt & Ha & -> & -> & _).
    exists c, response, receipt, a. split; [exact Ha | ]. split; [in_trace | reflexivity].
  - use_run H. destruct R as (c & ref & bal & Href & -> & -> & _).
    exists c, ref, bal. split; [exact Href | ]. split; [in_trace | reflexivity].
  - use_run H.
    destruct R as (c & a1 & a2 & response & receipt & Ha1 & Ha2 & -> & -> & _).
    exists c, response, receipt, a1, a2.
    split; [exact Ha1 | ]. split; [exact Ha2 | ]. split; [in_trace | reflexivity].
  - by apply transferNFTWithBalanceCheck_inv.
  - by apply createCompleteNFTCollection_inv.
Qed.

(** * Further properties *)

(** ** The transactions a run may execute *)

(** The kinds of the transactions a run has executed, in order. *)
Definition executed_kinds (t : list event) : list tx_kind := map kind_of_tx (executed t).

(** In every run, the executed transactions are, kind for kind, some of
    [ks], in that order and none of them twice. *)
Definition submits {A} (ks : list tx_kind) (m : M A) : Prop :=
  forall s, executed_kinds (trace_of (m s)) `sublist_of` ks.

Lemma executed_kinds_app (t1 t2 : list event) :
  executed_kinds (t1 ++ t2) = executed_kinds t1 ++ executed_kinds t2.
Proof. unfold executed_kinds. by rewrite executed_app, map_app. Qed.

Lemma submits_weaken {A} (ks : list tx_kind) (m : M A) : submits [] m -> submits ks m.
Proof. intros Hm s. specialize (Hm s). apply sublist_nil_r in Hm as ->. apply sublist_nil_l. Qed.

Lemma submits_bind {A B} (ks1 ks2 : list tx_kind) (m : M A) (f : A -> M B) :
  submits ks1 m -> (forall a, submits ks2 (f a)) -> submits (ks1 ++ ks2) (bind m f).
Proof.
  intros Hm Hf s. specialize (Hm s). unfold bind.
  destruct (m s) as [[[a|e] s1] t1]; simpl in *.
  - specialize (Hf a s1). destruct (f a s1) as [[o2 s2] t2]; simpl in *.
    rewrite executed_kinds_app. by apply sublist_app.
  - by apply sublist_inserts_r.
Qed.

Lemma submits_bind_silent {A B} (ks : list tx_kind) (m : M A) (f : A -> M B) :
  submits [] m -> (forall a, submits ks (f a)) -> submits ks (bind m f).
Proof. intros Hm Hf. by apply (submits_bind [] ks). Qed.

Lemma submits_bind_head {A B} (k : tx_kind) (ks : list tx_kind) (m : M A) (f : A -> M B) :
  submits [k] m -> (forall a, submits ks (f a)) -> submits (k :: ks) (bind m f).
Proof. intros Hm Hf. by apply (submits_bind [k] ks). Qed.

Lemma submits_bind_stuck {A B} (ks : list tx_kind) (m : M A) (f : A -> M B) :
  never_returns m -> submits ks m -> submits ks (bind m f).
Proof.
  intros Hnever Hm s. specialize (Hm s). destruct (Hnever s) as [e He]. unfold bind.
  destruct (m s) as [[[a|e'] s1] t1]; simpl in *; [discriminate | exact Hm].
Qed.

Lemma submits_try_catch {A} (ks : list tx_kind) (m : M A) (h : Error -> M A) :
  submits ks m -> (forall e, submits [] (h e)) -> submits ks (try_catch m h).
Proof.
  intros Hm Hh s. specialize (Hm s). unfold try_catch.
  destruct (m s) as [[[a|e] s1] t1]; simpl in *; [exact Hm | ].
  specialize (Hh e s1). destruct (h e s1) as [[o2 s2] t2]; simpl in *.
  rewrite executed_kinds_app. apply sublist_nil_r in Hh as ->. by rewrite app_nil_r.
Qed.

Lemma submits_try_finally {A} (ks : list tx_kind) (m : M A) (fin : M unit) :
  submits ks m -> submits [] fin -> submits ks (try_finally m fin).
Proof.
  intros Hm Hfin s. specialize (Hm s). unfold try_finally.
  destruct (m s) as [[o s1] t1]; simpl in *.
  specialize (Hfin s1). destruct (fin s1) as [[[[]|e] s2] t2]; simpl in *;
    rewrite executed_kinds_app; apply sublist_nil_r in Hfin as ->; by rewrite app_nil_r.
Qed.

Lemma submits_silent {A} (m : M A) : (forall s, trace_of (m s) = []) -> submits [] m.
Proof. intros Hm s. by rewrite Hm. Qed.

Lemma submits_field {A} (l : loc) (proj : Account.t -> A) : submits [] (field l proj).
Proof. apply submits_silent. intros s. unfold field. by destruct (heap s !! l). Qed.

Lemma submits_lift {A} (r : Error + A) : submits [] (lift r).
Proof. destruct r; by apply submits_silent. Qed.

Lemma submits_strict {A} (x : option A) : submits [] (strict x).
Proof. destruct x; by apply submits_silent. Qed.

Lemma submits_call (op : sdk_op) :
  submits match op with Execute tx _ => [kind_of_tx tx] | _ => [] end (call op).
Proof.
  intros s. unfold call. destruct (sdk op (world s)) as [[e|v] w]; by destruct op.
Qed.

Ltac submits_base :=
  first
    [ assumption
    | match goal with H : context [submits] |- _ => apply H end
    | apply submits_field
    | apply submits_lift
    | apply submits_strict
    | match goal with |- submits _ (call ?op) => exact (submits_call op) end
    | apply submits_silent; intros ?; reflexivity ].

Ltac submits_steps :=
  repeat first
    [ solve [ submits_base ]
    | apply submits_weaken; solve [ submits_base ]
    | unfold rethrow; apply submits_try_catch; [ | intros ?; solve [ submits_base ] ]
    | apply submits_bind_silent; [ solve [ submits_steps ] | intros ? ]
    | apply submits_bind_head; [ solve [ submits_steps ] | intros ? ]
    | match goal with
      | |- submits _ (bind (match ?x with _ => _ end) _) => destruct x
      end
    | match goal with |- submits _ (match ?x with _ => _ end) => destruct x end
    | match goal with |- submits _ (if ?b then _ else _) => destruct b end ].

Lemma submits_getClient : submits [] getClient.
Proof. unfold getClient. submits_steps. Qed.

Lemma submits_close : submits [] close.
Proof. unfold close. submits_steps. Qed.

Lemma submits_createAccount b : submits [KAccountCreate] (createAccount b).
Proof. unfold createAccount. pose proof submits_getClient. submits_steps. Qed.

Lemma submits_createNFTToken l cfg : submits [KTokenCreate] (createNFTToken l cfg).
Proof. unfold createNFTToken. pose proof submits_getClient. submits_steps. Qed.

Lemma submits_mintNFTs tok md : submits [KTokenMint] (mintNFTs tok md).
Proof. unfold mintNFTs. pose proof submits_getClient. submits_steps. Qed.

Lemma submits_getTokenBasicInfo id : submits [] (getTokenBasicInfo id).
Proof. unfold getTokenBasicInfo. pose proof submits_getClient. submits_steps. Qed.

Lemma submits_associateTokenToAccount l id :
  submits [KTokenAssociate] (associateTokenToAccount l id).
Proof. unfold associateTokenToAccount. pose proof submits_getClient. submits_steps. Qed.

Lemma submits_getAccountBalance a : submits [] (getAccountBalance a).
Proof. unfold getAccountBalance. pose proof submits_getClient. submits_steps. Qed.

Lemma submits_transferNFT id l1 l2 n : submits [KTransfer] (transferNFT id l1 l2 n).
Proof. unfold transferNFT. pose proof submits_getClient. submits_steps. Qed.


Lemma submits_associate_if_needed l id : submits [KTokenAssociate] (associate_if_needed l id).
Proof.
  intros s. rewrite associate_if_needed_run.
  pose proof (submits_associateTokenToAccount l id s) as H.
  destruct (associateTokenToAccount l id s) as [[[r|e] s1] t1]; simpl in *; [exact H | ].
  by destruct (includes (message e) TOKEN_ALREADY_ASSOCIATED).
Qed.

Lemma submits_transferNFTWithBalanceCheck id l1 l2 n :
  submits [KTokenAssociate; KTransfer] (transferNFTWithBalanceCheck id l1 l2 n).
Proof.
  unfold transferNFTWithBalanceCheck.
  pose proof submits_getAccountBalance. pose proof submits_transferNFT.
  pose proof submits_associate_if_needed. submits_steps.
Qed.

Lemma submits_createCompleteNFTCollection cfg md b :
  submits [KAccountCreate; KTokenCreate; KTokenMint] (createCompleteNFTCollection cfg md b).
Proof.
  unfold createCompleteNFTCollection.
  pose proof submits_createAccount. pose proof submits_createNFTToken.
  pose proof submits_mintNFTs. submits_steps.
Qed.

Lemma submits_main_try info cids :
  submits [KAccountCreate; KAccountCreate; KTokenCreate; KTokenMint] (main_try info cids).
Proof.
  unfold main_try.
  pose proof submits_createAccount. pose proof submits_createNFTToken.
  pose proof submits_mintNFTs.
  do 10 (first [ apply submits_bind_silent; [ solve [ submits_steps ] | intros ? ]
               | apply submits_bind_head; [ solve [ submits_steps ] | intros ? ] ]).
  apply submits_bind_stuck; [apply never_returns_throw | ].
  apply submits_silent. reflexivity.
Qed.

Lemma submits_main info cids env :
  submits [KAccountCreate; KAccountCreate; KTokenCreate; KTokenMint] (main info cids env).
Proof.
  unfold main. apply submits_bind_silent.
  - intros s. by rewrite constructor_silent.
  - intros _. apply submits_try_finally; [ | apply submits_close].
    apply submits_try_catch; [apply submits_main_try | ].
    intros e. by apply submits_silent.
Qed.

(** X1. On every ledger and in every run, returning or throwing, a method
    executes no other transactions than its own, each at most once and in
    this order: [createAccount] an account creation; [createNFTToken] a token
    creation; [mintNFTs] a mint; [associateTokenToAccount] an association;
    [transferNFT] a transfer; [transferNFTWithBalanceCheck] an association,
    then a transfer; [createCompleteNFTCollection] an account creation, a
    token creation, a mint; [main] two account creations, a token creation
    and a mint.  [getClient], [close], [getTokenBasicInfo] and
    [getAccountBalance] execute no transaction at all. *)
Theorem transactions_at_most_once :
  submits [] getClient /\
  submits [] close /\
  (forall tokenId, submits [] (getTokenBasicInfo tokenId)) /\
  (forall account, submits [] (getAccountBalance account)) /\
  (forall initialBalance, submits [KAccountCreate] (createAccount initialBalance)) /\
  (forall treasuryAccount tokenConfig,
      submits [KTokenCreate] (createNFTToken treasuryAccount tokenConfig)) /\
  (forall tokenData metadataArray, submits [KTokenMint] (mintNFTs tokenData metadataArray)) /\
  (forall account tokenId,
      submits [KTokenAssociate] (associateTokenToAccount account tokenId)) /\
  (forall tokenId fromAccount toAccount serialNumber,
      submits [KTransfer] (transferNFT tokenId fromAccount toAccount serialNumber)) /\
  (forall tokenId fromAccount toAccount serialNumber,
      submits [KTokenAssociate; KTransfer]
        (transferNFTWithBalanceCheck tokenId fromAccount toAccount serialNumber)) /\
  (forall tokenConfig metadataArray initialBalance,
      submits [KAccountCreate; KTokenCreate; KTokenMint]
        (createCompleteNFTCollection tokenConfig metadataArray initialBalance)) /\
  (forall info cids env,
      submits [KAccountCreate; KAccountCreate; KTokenCreate; KTokenMint]
        (main info cids env)).
Proof.
  split; [apply submits_getClient | ].
  split; [apply submits_close | ].
  split; [apply submits_getTokenBasicInfo | ].
  split; [apply submits_getAccountBalance | ].
  split; [apply submits_createAccount | ].
  split; [apply submits_createNFTToken | ].
  split; [apply submits_mintNFTs | ].
  split; [apply submits_associateTokenToAccount | ].
  split; [apply submits_transferNFT | ].
  split; [apply submits_transferNFTWithBalanceCheck | ].
  split; [apply submits_createCompleteNFTCollection | ].
  apply submits_main.
Qed.


(** ** The order of the calls, in runs that throw as well *)

(** In every run the calls are, kind for kind, an initial segment of [ks],
    and all of [ks] when the run returns. *)
Definition follows {A} (ks : list (op_kind * option tx_kind)) (m : M A) : Prop :=
  forall s,
    kinds (trace_of (m s)) `prefix_of` ks /\
    (forall a, outcome_of (m s) = Ok a -> kinds (trace_of (m s)) = ks).

Lemma follows_bind {A B} ks1 ks2 (m : M A) (f : A -> M B) :
  follows ks1 m -> (forall a, follows ks2 (f a)) -> follows (ks1 ++ ks2) (bind m f).
Proof.
  intros Hm Hf s. destruct (Hm s) as [Hpre Hall]. unfold bind.
  destruct (m s) as [[[a|e] s1] t1]; simpl in *.
  - destruct (Hf a s1) as [Hpre2 Hall2].
    destruct (f a s1) as [[o2 s2] t2]; simpl in *.
    rewrite kinds_app, (Hall a eq_refl). split.
    + by apply prefix_app.
    + intros b ->. by rewrite (Hall2 b eq_refl).
  - split; [by apply prefix_app_r | discriminate].
Qed.

Lemma follows_bind_silent {A B} ks (m : M A) (f : A -> M B) :
  follows [] m -> (forall a, follows ks (f a)) -> follows ks (bind m f).
Proof. intros Hm Hf. by apply (follows_bind [] ks). Qed.

Lemma follows_bind_head {A B} k ks (m : M A) (f : A -> M B) :
  follows [k] m -> (forall a, follows ks (f a)) -> follows (k :: ks) (bind m f).
Proof. intros Hm Hf. by apply (follows_bind [k] ks). Qed.

Lemma follows_rethrow {A} ks (m : M A) : follows ks m -> follows ks (rethrow m).
Proof. intros Hm s. rewrite rethrow_eq. apply Hm. Qed.

Lemma follows_call (op : sdk_op) : follows [kind op] (call op).
Proof.
  intros s. unfold call. by destruct (sdk op (world s)) as [[e|v] w].
Qed.

Lemma follows_silent {A} (m : M A) : (forall s, trace_of (m s) = []) -> follows [] m.
Proof. intros Hm s. by rewrite Hm. Qed.

Lemma follows_field {A} (l : loc) (proj : Account.t -> A) : follows [] (field l proj).
Proof. apply follows_silent. intros s. unfold field. by destruct (heap s !! l). Qed.

Lemma follows_lift {A} (r : Error + A) : follows [] (lift r).
Proof. destruct r; by apply follows_silent. Qed.

Ltac follows_base :=
  first
    [ apply follows_field
    | apply follows_lift
    | match goal with |- follows _ (call ?op) => exact (follows_call op) end
    | apply follows_silent; intros ?; reflexivity ].

Ltac follows_steps :=
  repeat first
    [ solve [ follows_base ]
    | apply follows_bind_silent; [ solve [ follows_steps ] | intros ? ]
    | apply follows_bind_head; [ solve [ follows_steps ] | intros ? ]
    | match goal with
      | |- follows _ (bind (match ?x with _ => _ end) _) => destruct x
      end ].

Lemma run_eta {A} (r : outcome A * state W * list event) :
  (let '(o, s, t) := r in (o, s, t)) = r.
Proof. by destruct r as [[o s] t]. Qed.

(** The client set-up, in runs that throw as well. *)
Lemma getClient_follows (s : state W) :
  kinds (trace_of (getClient s)) `prefix_of` setup_kinds (this s) /\
  (forall c, outcome_of (getClient s) = Ok c ->
             kinds (trace_of (getClient s)) = setup_kinds (this s)).
Proof.
  destruct (Service.client (this s)) as [c|] eqn:Hc.
  - rewrite (getClient_stored s c Hc). unfold setup_kinds. rewrite Hc. by split.
  - pose (construct :=
            c <- call ClientForTestnet ;;
            set_client (Some c) ;;
            call (ClientSetOperator c (Service.operatorId (this s))
                    (Service.operatorKey (this s))) ;;
            call (ClientSetDefaultMaxTransactionFee c (mkHbar 50)) ;;
            call (ClientSetDefaultMaxQueryPayment c (mkHbar 30)) ;;
            ret c).
    assert (getClient s = construct s) as ->.
    { unfold getClient, construct. unfold bind at 1, get_this. simpl. rewrite Hc.
      apply run_eta. }
    assert (follows [ (KForTestnet, None); (KSetOperator, None);
                      (KSetMaxFee, None); (KSetMaxPayment, None) ] construct) as H
      by (unfold construct; follows_steps).
    unfold setup_kinds. rewrite Hc. apply H.
Qed.

(** A method: the client, then a body with a fixed sequence of calls. *)
Lemma method_follows {A} ks (body : Client -> M A) (s : state W) :
  (forall c, follows ks (body c)) ->
  kinds (trace_of (rethrow (bind getClient body) s)) `prefix_of` setup_kinds (this s) ++ ks.
Proof.
  intros Hbody. rewrite rethrow_eq. destruct (getClient_follows s) as [Hpre Hall].
  unfold bind. destruct (getClient s) as [[[c|e] s1] t1]; simpl in *.
  - destruct (Hbody c s1) as [Hpre2 _]. destruct (body c s1) as [[o2 s2] t2]; simpl in *.
    rewrite kinds_app, (Hall c eq_refl). by apply prefix_app.
  - by apply prefix_app_r.
Qed.

(** X2. In every run, also one that throws, the calls of a method are, kind
    for kind, an initial segment of the one sequence the method has: the
    set-up of the client when none is stored, then generate-key, execute,
    receipt for [createAccount]; freeze, sign, execute, receipt, info query
    for [createNFTToken]; freeze, sign, execute, receipt for [mintNFTs] and
    [associateTokenToAccount]; freeze, two signatures, execute, receipt for
    [transferNFT]; one query for [getTokenBasicInfo] and [getAccountBalance].
    A call is never made out of order, and never after a later one. *)
Theorem calls_in_order (s : state W) :
  let setup := setup_kinds (this s) in
  kinds (trace_of (getClient s)) `prefix_of` setup /\
  (forall initialBalance,
      kinds (trace_of (createAccount initialBalance s))
      `prefix_of` setup ++ createAccount_kinds) /\
  (forall treasuryAccount tokenConfig,
      kinds (trace_of (createNFTToken treasuryAccount tokenConfig s))
      `prefix_of` setup ++ createNFTToken_kinds) /\
  (forall tokenData metadataArray,
      kinds (trace_of (mintNFTs tokenData metadataArray s))
      `prefix_of` setup ++ submit_kinds KTokenMint 1) /\
  (forall tokenId,
      kinds (trace_of (getTokenBasicInfo tokenId s))
      `prefix_of` setup ++ [ (KTokenInfoQuery, None) ]) /\
  (forall account tokenId,
      kinds (trace_of (associateTokenToAccount account tokenId s))
      `prefix_of` setup ++ submit_kinds KTokenAssociate 1) /\
  (forall account,
      kinds (trace_of (getAccountBalance account s)) `prefix_of` setup ++ balance_kinds) /\
  (forall tokenId fromAccount toAccount serialNumber,
      kinds (trace_of (transferNFT tokenId fromAccount toAccount serialNumber s))
      `prefix_of` setup ++ submit_kinds KTransfer 2).
Proof.
  intros setup. subst setup.
  split; [apply getClient_follows | ].
  repeat match goal with |- _ /\ _ => split end; intros;
    apply method_follows; intros c;
    unfold createAccount_kinds, createNFTToken_kinds, balance_kinds, submit_kinds; simpl;
    follows_steps.
Qed.


(** ** The transfer workflow when it returns *)







(** ** The store only grows *)

(** A computation that leaves the account objects it found as they are; it
    may add new ones. *)
Definition extends {A} (m : M A) : Prop :=
  forall s, heap s `prefix_of` heap (state_of (m s)).

Lemma extends_keeps {A} (m : M A) : keeps_heap m -> extends m.
Proof. intros Hm s. by rewrite Hm. Qed.

Lemma extends_bind {A B} (m : M A) (f : A -> M B) :
  extends m -> (forall a, extends (f a)) -> extends (bind m f).
Proof.
  intros Hm Hf s. specialize (Hm s). unfold bind.
  destruct (m s) as [[[a|e] s1] t1]; simpl in *; [ | exact Hm].
  specialize (Hf a s1). destruct (f a s1) as [[o2 s2] t2]; simpl in *. by etrans.
Qed.

Lemma extends_try_catch {A} (m : M A) (h : Error -> M A) :
  extends m -> (forall e, extends (h e)) -> extends (try_catch m h).
Proof.
  intros Hm Hh s. specialize (Hm s). unfold try_catch.
  destruct (m s) as [[[a|e] s1] t1]; simpl in *; [exact Hm | ].
  specialize (Hh e s1). destruct (h e s1) as [[o2 s2] t2]; simpl in *. by etrans.
Qed.

Lemma extends_try_finally {A} (m : M A) (fin : M unit) :
  extends m -> extends fin -> extends (try_finally m fin).
Proof.
  intros Hm Hfin s. specialize (Hm s). unfold try_finally.
  destruct (m s) as [[o s1] t1]; simpl in *.
  specialize (Hfin s1). destruct (fin s1) as [[[[]|e] s2] t2]; simpl in *; by etrans.
Qed.

Lemma extends_alloc (a : Account.t) : extends (alloc a).
Proof. intros s. simpl. by apply prefix_app_r. Qed.

Ltac extends_steps :=
  repeat first
    [ apply extends_alloc
    | match goal with H : context [extends] |- _ => apply H end
    | apply extends_keeps;
      first [ apply keeps_heap_getClient
            | apply keeps_heap_close
            | apply keeps_heap_createNFTToken
            | apply keeps_heap_mintNFTs
            | apply keeps_heap_getAccountBalance
            | apply keeps_heap_transferNFTWithBalanceCheck
            | solve [ auto with keeps_heap ]
            | solve [ intros ?; reflexivity ] ]
    | unfold rethrow; apply extends_try_catch; [ | intros ? ]
    | apply extends_bind; [ | intros ? ]
    | match goal with |- extends (match ?x with _ => _ end) => destruct x end
    | match goal with |- extends (if ?b then _ else _) => destruct b end ].

Lemma extends_createAccount b : extends (createAccount b).
Proof. unfold createAccount. extends_steps. Qed.

Lemma extends_createCompleteNFTCollection cfg md b :
  extends (createCompleteNFTCollection cfg md b).
Proof.
  unfold createCompleteNFTCollection. pose proof extends_createAccount. extends_steps.
Qed.

Lemma extends_main info cids env : extends (main info cids env).
Proof.
  unfold main, main_try, constructor, unbound. pose proof extends_createAccount.
  apply extends_bind; [extends_steps | intros _].
  apply extends_try_finally; [ | extends_steps].
  apply extends_try_catch; [ | intros ?; extends_steps].
  extends_steps.
Qed.

(** A computation whose runs that throw leave the store as it was. *)
Definition throws_before_storing {A} (m : M A) : Prop :=
  forall s e, outcome_of (m s) = Throw e -> heap (state_of (m s)) = heap s.

Lemma throws_before_storing_bind {A B} (m : M A) (f : A -> M B) :
  keeps_heap m -> (forall a, throws_before_storing (f a)) ->
  throws_before_storing (bind m f).
Proof.
  intros Hm Hf s e. specialize (Hm s). unfold bind.
  destruct (m s) as [[[a|e'] s1] t1]; simpl in *; [ | by intros _].
  specialize (Hf a s1 e). destruct (f a s1) as [[o2 s2] t2]; simpl in *.
  intros Ho. by rewrite (Hf Ho).
Qed.

Lemma createAccount_throws_before_storing b : throws_before_storing (createAccount b).
Proof.
  unfold createAccount. intros s e. rewrite rethrow_eq. revert s e.
  apply throws_before_storing_bind; [apply keeps_heap_getClient | intros c].
  apply throws_before_storing_bind; [apply keeps_heap_call | intros key].
  apply throws_before_storing_bind; [apply keeps_heap_call | intros response].
  apply throws_before_storing_bind; [apply keeps_heap_call | intros receipt].
  intros s e. discriminate.
Qed.

(** X5. The store of account objects only grows.  Whatever the ledger
    answers, [createAccount], [createCompleteNFTCollection] and [main] leave
    every account object that existed before with all its fields.  A
    [createAccount] that returns has added exactly one object, under a
    reference that named nothing before; one that throws has added none. *)
Theorem store_only_grows (s : state W) :
  (forall account a,
      heap s !! account = Some a ->
      (forall b, heap (state_of (createAccount b s)) !! account = Some a) /\
      (forall cfg md b,
          heap (state_of (createCompleteNFTCollection cfg md b s)) !! account = Some a) /\
      (forall info cids env,
          heap (state_of (main info cids env s)) !! account = Some a)) /\
  (forall b account s' t,
      createAccount b s = (Ok account, s', t) ->
      heap s !! account = None /\
      is_Some (heap s' !! account) /\
      length (heap s') = S (length (heap s))) /\
  (forall b e, outcome_of (createAccount b s) = Throw e ->
               heap (state_of (createAccount b s)) = heap s).
Proof.
  split; [ | split].
  - intros account a Ha.
    split; [ | split]; intros.
    + eapply prefix_lookup_Some; [exact Ha | apply extends_createAccount].
    + eapply prefix_lookup_Some; [exact Ha | apply extends_createCompleteNFTCollection].
    + eapply prefix_lookup_Some; [exact Ha | apply extends_main].
  - intros b account s' t H. use_run H.
    destruct R as (c & key & response & receipt & _ & -> & -> & _).
    split; [by apply lookup_ge_None_2 | ].
    split; [ | by rewrite length_app, Nat.add_comm].
    rewrite lookup_app_r, Nat.sub_diag by done. by eexists.
  - intros b e. apply createAccount_throws_before_storing.
Qed.


(** ** The collection workflow *)

(** The keys a run has signed transactions with, in order. *)
Definition signers (t : list event) : list PrivateKey :=
  omap (fun ev => match ev_op ev with Sign _ k => Some k | _ => None end) t.

(** The keys a run has generated, in order. *)
Definition generated_keys (t : list event) : list PrivateKey :=
  omap (fun ev => match ev with
                  | Ev PrivateKeyGenerateED25519 (inr key) => Some key
                  | _ => None
                  end) t.

Lemma signers_app (t1 t2 : list event) : signers (t1 ++ t2) = signers t1 ++ signers t2.
Proof. apply omap_app. Qed.

Lemma generated_keys_app (t1 t2 : list event) :
  generated_keys (t1 ++ t2) = generated_keys t1 ++ generated_keys t2.
Proof. apply omap_app. Qed.

Lemma signers_client_setup srv c : signers (client_setup srv c) = [].
Proof. unfold client_setup. by destruct (Service.client srv). Qed.

Lemma generated_keys_client_setup srv c : generated_keys (client_setup srv c) = [].
Proof. unfold client_setup. by destruct (Service.client srv). Qed.

Lemma signers_submitted tx ks c response receipt :
  signers (submitted tx ks c response receipt) = ks.
Proof.
  unfold submitted, signers. simpl. rewrite omap_app. simpl. rewrite app_nil_r.
  induction ks as [|k ks IH]; simpl; [reflexivity | f_equal; exact IH].
Qed.

Lemma generated_keys_submitted tx ks c response receipt :
  generated_keys (submitted tx ks c response receipt) = [].
Proof.
  unfold submitted, generated_keys. simpl. rewrite omap_app. simpl.
  induction ks as [|k ks IH]; simpl; [reflexivity | exact IH].
Qed.

Lemma client_setup_stored srv c c' : client_setup (Service.with_client (Some c) srv) c' = [].
Proof. by destruct srv. Qed.

Lemma metadataBuffers_length (metadatas : list jsval) (buffers : list Buffer) :
  metadataBuffers metadatas = inr buffers -> length buffers = length metadatas.
Proof.
  revert buffers. induction metadatas as [|metadata rest IH]; intros buffers; simpl.
  - by intros [= <-].
  - destruct (Buffer_from_js (metadataString metadata)) as [e|b]; [done | ].
    destruct (metadataBuffers rest) as [e|bs]; [done | ].
    intros [= <-]. simpl. by rewrite (IH bs).
Qed.

(** X6. A [createCompleteNFTCollection] that returns has generated exactly
    one key, stored the new account under a reference that named nothing
    before, made that account the treasury of the token, and signed every
    transaction after the account creation with that one key: it has executed
    the account creation for the key's public key and the initial balance
    (100 by default), the token creation with the new account as treasury,
    and, only when the metadata list is non-empty, one mint of the created
    token carrying one buffer per element. *)
Theorem collection_wiring tokenConfig metadataArray initialBalance
    (s s' : state W) (result : Collection.t) (t : list event) :
  createCompleteNFTCollection tokenConfig metadataArray initialBalance s
  = (Ok result, s', t) ->
  exists key holder mint,
    generated_keys t = [key] /\
    heap s !! Collection.account result = None /\
    heap s' !! Collection.account result = Some holder /\
    Account.privateKey holder = key /\
    Account.publicKey holder = publicKey key /\
    Account.balance holder = default 100 initialBalance /\
    Token.treasuryAccount (Collection.tokenData result) = Collection.account result /\
    executed t
    = AccountCreateTransaction (publicKey key) (mkHbar (default 100 initialBalance))
      :: token_create_tx (Some (default TokenConfig.empty tokenConfig)) holder
      :: mint /\
    signers t = key :: replicate (length mint) key /\
    match default [] metadataArray with
    | [] => mint = [] /\ Collection.mintResult result = None
    | metadatas =>
        exists buffers,
          metadataBuffers metadatas = inr buffers /\
          length buffers = length metadatas /\
          mint = [TokenMintTransaction (Token.tokenId (Collection.tokenData result)) buffers]
    end.
Proof.
  intros H.
  apply createCompleteNFTCollection_inv in H
    as (s1 & s2 & t1 & t2 & t3 & account & tokenData & mintResult & holder
        & H1 & H2 & H3 & Hholder & -> & ->).
  use_run H1. destruct R as (c1 & key & response1 & receipt1 & -> & -> & Hheap1 & _ & Hthis1).
  use_run H2.
  destruct R as (c2 & treasury & response2 & receipt2 & info & Htreasury & -> & ->
                 & _ & Hthis2 & Hheap2).
  rewrite Hheap1, lookup_app_r, Nat.sub_diag in Htreasury by done.
  injection Htreasury as <-.
  rewrite Hthis1, client_setup_stored.
  assert (Hmint : exists mint,
             heap s' = heap s2 /\
             executed t3 = mint /\ signers t3 = replicate (length mint) key /\ generated_keys t3 = [] /\
             match default [] metadataArray with
             | [] => mint = [] /\ mintResult = None
             | metadatas =>
                 exists buffers,
                   metadataBuffers metadatas = inr buffers /\
                   length buffers = length metadatas /\
                   mint = [TokenMintTransaction (Receipt.tokenId receipt2) buffers]
             end).
  { destruct (default [] metadataArray) as [|metadata metadatas] eqn:Hmd.
    - destruct H3 as (-> & -> & ->). by exists [].
    - destruct H3 as (r & -> & H3). use_run H3.
      destruct R as (c3 & buffers & treasury & response3 & receipt3 & Hbuffers & Htreasury
                     & -> & _ & _ & Hthis3 & Hheap3).
      simpl in Htreasury.
      rewrite Hheap2, Hheap1, lookup_app_r, Nat.sub_diag in Htreasury by done.
      injection Htreasury as <-.
      rewrite Hthis2, client_setup_stored. simpl app.
      eexists. split; [exact Hheap3 | ].
      rewrite executed_submitted, signers_submitted, generated_keys_submitted.
      split; [reflexivity | ]. split; [reflexivity | ]. split; [reflexivity | ].
      exists buffers. split; [exact Hbuffers | ].
      split; [ | reflexivity].
      exact (metadataBuffers_length _ _ Hbuffers). }
  destruct Hmint as (mint & Hheap3 & Hexec & Hsign & Hgen & Hshape).
  exists key, (Account.mk (Receipt.accountId receipt1) key (publicKey key)
                 (Receipt.status receipt1) (default 100 (Some (default 100 initialBalance)))),
         mint.
  rewrite !generated_keys_app, !executed_app, !signers_app.
  rewrite generated_keys_client_setup, executed_client_setup, signers_client_setup.
  rewrite generated_keys_submitted, executed_submitted, signers_submitted.
  rewrite Hexec, Hsign, Hgen. simpl.
  split; [reflexivity | ].
  split; [by apply lookup_ge_None_2 | ].
  split; [by rewrite Hheap3, Hheap2, Hheap1, lookup_app_r, Nat.sub_diag | ].
  do 4 (split; [reflexivity | ]).
  split; [reflexivity | ].
  split; [reflexivity | ].
  exact Hshape.
Qed.


(** ** The life of the client handle *)

(** The handles a run has constructed, and the handles it has called
    [close()] on, in order. *)
Definition constructed (t : list event) : list Client :=
  omap (fun ev => match ev with
                  | Ev ClientForTestnet (inr c) => Some c
                  | _ => None
                  end) t.

Definition closed (t : list event) : list Client :=
  omap (fun ev => match ev_op ev with ClientClose c => Some c | _ => None end) t.

Definition stored (s : state W) : list Client := option_list (Service.client (this s)).

(** A computation that constructs a handle only to store it, never drops
    one and never closes one: the handle stored before and the handles
    constructed are the handle stored after. *)
Definition tracks_client {A} (m : M A) : Prop :=
  forall s,
    stored s ++ constructed (trace_of (m s)) = stored (state_of (m s)) /\
    closed (trace_of (m s)) = [].

Lemma constructed_app (t1 t2 : list event) :
  constructed (t1 ++ t2) = constructed t1 ++ constructed t2.
Proof. apply omap_app. Qed.

Lemma closed_app (t1 t2 : list event) : closed (t1 ++ t2) = closed t1 ++ closed t2.
Proof. apply omap_app. Qed.

Lemma tracks_client_bind {A B} (m : M A) (f : A -> M B) :
  tracks_client m -> (forall a, tracks_client (f a)) -> tracks_client (bind m f).
Proof.
  intros Hm Hf s. destruct (Hm s) as [Hm1 Hm2]. unfold bind.
  destruct (m s) as [[[a|e] s1] t1]; simpl in *; [ | done].
  destruct (Hf a s1) as [Hf1 Hf2]. destruct (f a s1) as [[o2 s2] t2]; simpl in *.
  rewrite constructed_app, closed_app, Hm2, Hf2, (assoc_L (++)), Hm1. done.
Qed.

Lemma tracks_client_try_catch {A} (m : M A) (h : Error -> M A) :
  tracks_client m -> (forall e, tracks_client (h e)) -> tracks_client (try_catch m h).
Proof.
  intros Hm Hh s. destruct (Hm s) as [Hm1 Hm2]. unfold try_catch.
  destruct (m s) as [[[a|e] s1] t1]; simpl in *; [done | ].
  destruct (Hh e s1) as [Hh1 Hh2]. destruct (h e s1) as [[o2 s2] t2]; simpl in *.
  rewrite constructed_app, closed_app, Hm2, Hh2, (assoc_L (++)), Hm1. done.
Qed.

Lemma tracks_client_quiet {A} (m : M A) :
  (forall s, trace_of (m s) = [] /\ this (state_of (m s)) = this s) -> tracks_client m.
Proof.
  intros Hm s. destruct (Hm s) as [-> Hthis]. unfold stored. rewrite Hthis. simpl.
  by rewrite app_nil_r.
Qed.

Lemma tracks_client_field {A} (l : loc) (proj : Account.t -> A) :
  tracks_client (field l proj).
Proof. apply tracks_client_quiet. intros s. unfold field. by destruct (heap s !! l). Qed.

Lemma tracks_client_lift {A} (r : Error + A) : tracks_client (lift r).
Proof. destruct r; by apply tracks_client_quiet. Qed.

Lemma tracks_client_strict {A} (x : option A) : tracks_client (strict x).
Proof. destruct x; by apply tracks_client_quiet. Qed.

Lemma tracks_client_call (op : sdk_op) :
  match op with ClientForTestnet | ClientClose _ => False | _ => True end ->
  tracks_client (call op).
Proof.
  intros Hop s. unfold call, stored.
  destruct (sdk op (world s)) as [[e|v] w]; destruct op; simpl in *;
    by rewrite ?app_nil_r.
Qed.

Lemma tracks_client_getClient : tracks_client getClient.
Proof.
  intros s. unfold getClient, bind, get_this, set_client, call, ret, stored.
  destruct s as [[id key [c|]] h w]; simpl; [done | ].
  repeat (match goal with
          | |- context [sdk ?op ?w] => destruct (sdk op w) as [[?e|?v] ?w]; simpl
          end; try done).
Qed.

Ltac tracks_client_base :=
  first
    [ apply tracks_client_getClient
    | match goal with H : context [tracks_client] |- _ => apply H end
    | apply tracks_client_field
    | apply tracks_client_lift
    | apply tracks_client_strict
    | match goal with
      | |- tracks_client (call ?op) => exact (tracks_client_call op I)
      end
    | apply tracks_client_quiet; intros ?; split; reflexivity ].

Ltac tracks_client_steps :=
  repeat first
    [ solve [ tracks_client_base ]
    | unfold rethrow; apply tracks_client_try_catch; [ | intros ? ]
    | apply tracks_client_bind; [ | intros ? ]
    | match goal with |- tracks_client (match ?x with _ => _ end) => destruct x end
    | match goal with |- tracks_client (if ?b then _ else _) => destruct b end ].

Lemma tracks_client_createAccount b : tracks_client (createAccount b).
Proof. unfold createAccount. tracks_client_steps. Qed.

Lemma tracks_client_createNFTToken l cfg : tracks_client (createNFTToken l cfg).
Proof. unfold createNFTToken. tracks_client_steps. Qed.

Lemma tracks_client_mintNFTs tok md : tracks_client (mintNFTs tok md).
Proof. unfold mintNFTs. tracks_client_steps. Qed.

Lemma tracks_client_getTokenBasicInfo id : tracks_client (getTokenBasicInfo id).
Proof. unfold getTokenBasicInfo. tracks_client_steps. Qed.

Lemma tracks_client_associateTokenToAccount l id :
  tracks_client (associateTokenToAccount l id).
Proof. unfold associateTokenToAccount. tracks_client_steps. Qed.

Lemma tracks_client_getAccountBalance a : tracks_client (getAccountBalance a).
Proof. unfold getAccountBalance. tracks_client_steps. Qed.

Lemma tracks_client_transferNFT id l1 l2 n : tracks_client (transferNFT id l1 l2 n).
Proof. unfold transferNFT. tracks_client_steps. Qed.

Lemma tracks_client_transferNFTWithBalanceCheck id l1 l2 n :
  tracks_client (transferNFTWithBalanceCheck id l1 l2 n).
Proof.
  unfold transferNFTWithBalanceCheck.
  pose proof tracks_client_getAccountBalance. pose proof tracks_client_transferNFT.
  pose proof tracks_client_associateTokenToAccount. tracks_client_steps.
Qed.

Lemma tracks_client_createCompleteNFTCollection cfg md b :
  tracks_client (createCompleteNFTCollection cfg md b).
Proof.
  unfold createCompleteNFTCollection.
  pose proof tracks_client_createAccount. pose proof tracks_client_createNFTToken.
  pose proof tracks_client_mintNFTs. tracks_client_steps.
Qed.

Lemma tracks_client_main_try info cids : tracks_client (main_try info cids).
Proof.
  unfold main_try, unbound.
  pose proof tracks_client_createAccount. pose proof tracks_client_createNFTToken.
  pose proof tracks_client_mintNFTs. pose proof tracks_client_getAccountBalance.
  pose proof tracks_client_transferNFTWithBalanceCheck. tracks_client_steps.
Qed.

(** X7. The client handle from construction to release.  In every run of a
    method, returning or throwing, a handle is constructed only when none is
    stored, at most once, and it is the one found stored afterwards (also
    when its configuration failed); a stored handle stays, and no method
    calls [close()] on a handle. *)
Theorem client_constructed_once (s : state W) :
  (forall A (m : M A),
      tracks_client m ->
      closed (trace_of (m s)) = [] /\
      match Service.client (this s) with
      | Some c =>
          constructed (trace_of (m s)) = [] /\
          Service.client (this (state_of (m s))) = Some c
      | None =>
          constructed (trace_of (m s)) = option_list (Service.client (this (state_of (m s))))
      end) /\
  tracks_client getClient /\
  (forall initialBalance, tracks_client (createAccount initialBalance)) /\
  (forall treasuryAccount tokenConfig,
      tracks_client (createNFTToken treasuryAccount tokenConfig)) /\
  (forall tokenData metadataArray, tracks_client (mintNFTs tokenData metadataArray)) /\
  (forall tokenId, tracks_client (getTokenBasicInfo tokenId)) /\
  (forall account tokenId, tracks_client (associateTokenToAccount account tokenId)) /\
  (forall account, tracks_client (getAccountBalance account)) /\
  (forall tokenId fromAccount toAccount serialNumber,
      tracks_client (transferNFT tokenId fromAccount toAccount serialNumber)) /\
  (forall tokenId fromAccount toAccount serialNumber,
      tracks_client (transferNFTWithBalanceCheck tokenId fromAccount toAccount serialNumber)) /\
  (forall tokenConfig metadataArray initialBalance,
      tracks_client (createCompleteNFTCollection tokenConfig metadataArray initialBalance)).
Proof.
  split.
  { intros A m Hm. destruct (Hm s) as [Hstored Hclosed]. split; [exact Hclosed | ].
    unfold stored in Hstored.
    destruct (Service.client (this s)) as [c|]; simpl in Hstored; [ | exact Hstored].
    destruct (Service.client (this (state_of (m s)))) as [c'|]; [ | done].
    simpl in Hstored. injection Hstored as -> Hnil. done. }
  split; [apply tracks_client_getClient | ].
  split; [apply tracks_client_createAccount | ].
  split; [apply tracks_client_createNFTToken | ].
  split; [apply tracks_client_mintNFTs | ].
  split; [apply tracks_client_getTokenBasicInfo | ].
  split; [apply tracks_client_associateTokenToAccount | ].
  split; [apply tracks_client_getAccountBalance | ].
  split; [apply tracks_client_transferNFT | ].
  split; [apply tracks_client_transferNFTWithBalanceCheck | ].
  apply tracks_client_createCompleteNFTCollection.
Qed.

(** X8. [main] releases what it acquired.  A run of [main] that returns
    leaves no handle stored; it has constructed at most one client, and when
    it has constructed one, its last SDK call is the [close()] of that
    client, which returned.  A run that throws either threw the constructor's
    error before any SDK call, or its last call is the [close()] of the one
    client it constructed, and the run throws the error of that call with
    the handle still stored.  No other call of the run closes a client. *)
Theorem main_releases_client info cids env (s : state W) :
  match main info cids env s with
  | (Ok r, s', t) =>
      Service.client (this s') = None /\
      ((constructed t = [] /\ closed t = []) \/
       exists c pre,
         t = pre ++ [Ev (ClientClose c) (inr tt)] /\ constructed pre = [c] /\ closed pre = [])
  | (Throw e, s', t) =>
      (e = missing_credentials /\ t = []) \/
      exists c pre,
        t = pre ++ [Ev (ClientClose c) (inl e)] /\ constructed pre = [c] /\ closed pre = [] /\
        Service.client (this s') = Some c
  end.
Proof.
  unfold main, bind at 1, constructor, bind, set_this, get_this. simpl.
  destruct (falsy (env !! "OPERATOR_KEY") || falsy (env !! "OPERATOR_ID")); simpl.
  { by left. }
  set (s1 := mkState _ _ _).
  assert (Hbody : tracks_client (try_catch (main_try info cids) (fun _ => ret None))).
  { apply tracks_client_try_catch; [apply tracks_client_main_try | ].
    intros e. by apply tracks_client_quiet. }
  assert (Hcaught : exists r,
             outcome_of (try_catch (main_try info cids) (fun _ => ret None) s1) = Ok r).
  { unfold try_catch. destruct (main_try info cids s1) as [[[r|e] s2] t2]; by eexists. }
  destruct Hcaught as [r Hcaught].
  destruct (Hbody s1) as [Hstored Hclosed]. unfold try_finally.
  destruct (try_catch (main_try info cids) (fun _ => ret None) s1) as [[o s2] t2].
  simpl in Hstored, Hclosed, Hcaught. subst o. unfold stored in Hstored.
  unfold close, bind, get_this, call, set_client, ret. simpl.
  destruct s2 as [[id key [c|]] h w]; simpl in *.
  - destruct (sdk (ClientClose c) w) as [[e|[]] w']; simpl.
    + right. by exists c, t2.
    + split; [done | ]. right. by exists c, t2.
  - split; [done | ]. left. by rewrite app_nil_r.
Qed.


(** ** The readable token balances *)







(** ** Metadata that cannot be encoded *)

Definition buffer_type_error : Error :=
  TypeError "The first argument must be of type string. Received undefined".

Lemma metadataBuffers_undefined (metadatas : list jsval) :
  JUndefined ∈ metadatas -> metadataBuffers metadatas = inl buffer_type_error.
Proof.
  induction metadatas as [|m l IH]; [by intros ?%elem_of_nil | ].
  intros [<-|Hin]%elem_of_cons; simpl; [done | ].
  destruct (metadataString m); simpl; [ | done].
  by rewrite (IH Hin).
Qed.

(** X10. [mintNFTs] encodes every metadata element before it builds the
    transaction.  On every ledger, when the argument is [undefined] or an
    array with an [undefined] element, wherever it stands, the run makes the
    calls of [getClient()] and no other, executes no transaction, leaves the
    state [getClient()] left, and throws: the TypeError of [Buffer.from] when
    [getClient()] returned, the error of [getClient()] otherwise. *)
Theorem mintNFTs_rejects_undefined tokenData metadataArray (s : state W) :
  JUndefined ∈ metadatas_of metadataArray ->
  let run := mintNFTs tokenData metadataArray s in
  trace_of run = trace_of (getClient s) /\
  state_of run = state_of (getClient s) /\
  executed (trace_of run) = [] /\
  outcome_of run
  = match outcome_of (getClient s) with
    | Ok _ => Throw buffer_type_error
    | Throw e => Throw e
    end.
Proof.
  intros Hundefined run. subst run.
  assert (Hnone : executed (trace_of (getClient s)) = []).
  { pose proof (submits_getClient s) as Hsub. apply sublist_nil_r in Hsub.
    by apply fmap_nil_inv in Hsub. }
  assert (Hrun : mintNFTs tokenData metadataArray s
                 = let '(o, s1, t1) := getClient s in
                   (match o with Ok _ => Throw buffer_type_error | Throw e => Throw e end,
                    s1, t1)).
  { unfold mintNFTs. rewrite rethrow_eq. unfold bind at 1.
    destruct (getClient s) as [[[c|e] s1] t1]; [ | done].
    unfold bind at 1. rewrite (metadataBuffers_undefined _ Hundefined). simpl.
    by rewrite app_nil_r. }
  rewrite Hrun. by destruct (getClient s) as [[[c|e] s1] t1].
Qed.


(** ** The operator credentials *)

(** The call configures a client with the credentials of [srv], when it is a
    [setOperator]. *)
Definition uses_credentials (srv : Service.t) (ev : event) : Prop :=
  match ev_op ev with
  | ClientSetOperator _ operatorId operatorKey =>
      operatorId = Service.operatorId srv /\ operatorKey = Service.operatorKey srv
  | _ => True
  end.

Definition same_credentials (srv srv' : Service.t) : Prop :=
  Service.operatorId srv' = Service.operatorId srv /\
  Service.operatorKey srv' = Service.operatorKey srv.

(** A computation that leaves the two credential fields as they are and
    passes them, and nothing else, to every [setOperator]. *)
Definition keeps_credentials {A} (m : M A) : Prop :=
  forall s,
    same_credentials (this s) (this (state_of (m s))) /\
    Forall (uses_credentials (this s)) (trace_of (m s)).

Lemma uses_credentials_same (srv srv' : Service.t) (ev : event) :
  same_credentials srv srv' -> uses_credentials srv' ev -> uses_credentials srv ev.
Proof.
  unfold same_credentials, uses_credentials. intros [-> ->]. done.
Qed.

Lemma keeps_credentials_bind {A B} (m : M A) (f : A -> M B) :
  keeps_credentials m -> (forall a, keeps_credentials (f a)) -> keeps_credentials (bind m f).
Proof.
  intros Hm Hf s. destruct (Hm s) as [Hm1 Hm2]. unfold bind.
  destruct (m s) as [[[a|e] s1] t1]; simpl in *; [ | done].
  destruct (Hf a s1) as [Hf1 Hf2]. destruct (f a s1) as [[o2 s2] t2]; simpl in *.
  split.
  - destruct Hm1 as [Hid Hkey], Hf1 as [Hid' Hkey']. split; congruence.
  - apply Forall_app. split; [exact Hm2 | ].
    eapply Forall_impl; [exact Hf2 | ]. intros ev. by apply uses_credentials_same.
Qed.

Lemma keeps_credentials_try_catch {A} (m : M A) (h : Error -> M A) :
  keeps_credentials m -> (forall e, keeps_credentials (h e)) ->
  keeps_credentials (try_catch m h).
Proof.
  intros Hm Hh s. destruct (Hm s) as [Hm1 Hm2]. unfold try_catch.
  destruct (m s) as [[[a|e] s1] t1]; simpl in *; [done | ].
  destruct (Hh e s1) as [Hh1 Hh2]. destruct (h e s1) as [[o2 s2] t2]; simpl in *.
  split.
  - destruct Hm1 as [Hid Hkey], Hh1 as [Hid' Hkey']. split; congruence.
  - apply Forall_app. split; [exact Hm2 | ].
    eapply Forall_impl; [exact Hh2 | ]. intros ev. by apply uses_credentials_same.
Qed.

Lemma keeps_credentials_try_finally {A} (m : M A) (fin : M unit) :
  keeps_credentials m -> keeps_credentials fin -> keeps_credentials (try_finally m fin).
Proof.
  intros Hm Hfin s. destruct (Hm s) as [Hm1 Hm2]. unfold try_finally.
  destruct (m s) as [[o s1] t1]; simpl in *.
  destruct (Hfin s1) as [Hf1 Hf2]. destruct (fin s1) as [[[[]|e] s2] t2]; simpl in *.
  all: split;
    [ destruct Hm1 as [Hid Hkey], Hf1 as [Hid' Hkey']; split; congruence
    | apply Forall_app; split; [exact Hm2 | ];
      eapply Forall_impl; [exact Hf2 | ]; intros ev; by apply uses_credentials_same ].
Qed.

Lemma keeps_credentials_quiet {A} (m : M A) :
  (forall s, trace_of (m s) = [] /\ this (state_of (m s)) = this s) -> keeps_credentials m.
Proof. intros Hm s. destruct (Hm s) as [-> ->]. by split. Qed.

Lemma keeps_credentials_field {A} (l : loc) (proj : Account.t -> A) :
  keeps_credentials (field l proj).
Proof. apply keeps_credentials_quiet. intros s. unfold field. by destruct (heap s !! l). Qed.

Lemma keeps_credentials_lift {A} (r : Error + A) : keeps_credentials (lift r).
Proof. destruct r; by apply keeps_credentials_quiet. Qed.

Lemma keeps_credentials_strict {A} (x : option A) : keeps_credentials (strict x).
Proof. destruct x; by apply keeps_credentials_quiet. Qed.

Lemma keeps_credentials_call (op : sdk_op) :
  match op with ClientSetOperator _ _ _ => False | _ => True end ->
  keeps_credentials (call op).
Proof.
  intros Hop s. unfold call.
  destruct (sdk op (world s)) as [[e|v] w]; simpl; (split; [done | ]);
    apply Forall_singleton; unfold uses_credentials; simpl; by destruct op.
Qed.

Lemma keeps_credentials_getClient : keeps_credentials getClient.
Proof.
  intros s. unfold getClient, bind, get_this, set_client, call, ret.
  destruct s as [[id key [c|]] h w]; simpl; [done | ].
  repeat (match goal with
          | |- context [sdk ?op ?w] => destruct (sdk op w) as [[?e|?v] ?w]; simpl
          end; try (split; [done | ]; repeat constructor)).
Qed.

Lemma keeps_credentials_close : keeps_credentials close.
Proof.
  intros s. unfold close, bind, get_this, set_client, call, ret.
  destruct s as [[id key [c|]] h w]; simpl; [ | done].
  destruct (sdk (ClientClose c) w) as [[e|[]] w']; simpl;
    (split; [done | ]); by repeat constructor.
Qed.

Ltac keeps_credentials_base :=
  first
    [ apply keeps_credentials_getClient
    | apply keeps_credentials_close
    | match goal with H : context [keeps_credentials] |- _ => apply H end
    | apply keeps_credentials_field
    | apply keeps_credentials_lift
    | apply keeps_credentials_strict
    | match goal with
      | |- keeps_credentials (call ?op) => exact (keeps_credentials_call op I)
      end
    | apply keeps_credentials_quiet; intros ?; split; reflexivity ].

Ltac keeps_credentials_steps :=
  repeat first
    [ solve [ keeps_credentials_base ]
    | unfold rethrow; apply keeps_credentials_try_catch; [ | intros ? ]
    | apply keeps_credentials_bind; [ | intros ? ]
    | match goal with |- keeps_credentials (match ?x with _ => _ end) => destruct x end
    | match goal with |- keeps_credentials (if ?b then _ else _) => destruct b end ].

Lemma keeps_credentials_createAccount b : keeps_credentials (createAccount b).
Proof. unfold createAccount. keeps_credentials_steps. Qed.

Lemma keeps_credentials_createNFTToken l cfg : keeps_credentials (createNFTToken l cfg).
Proof. unfold createNFTToken. keeps_credentials_steps. Qed.

Lemma keeps_credentials_mintNFTs tok md : keeps_credentials (mintNFTs tok md).
Proof. unfold mintNFTs. keeps_credentials_steps. Qed.

Lemma keeps_credentials_getTokenBasicInfo id : keeps_credentials (getTokenBasicInfo id).
Proof. unfold getTokenBasicInfo. keeps_credentials_steps. Qed.

Lemma keeps_credentials_associateTokenToAccount l id :
  keeps_credentials (associateTokenToAccount l id).
Proof. unfold associateTokenToAccount. keeps_credentials_steps. Qed.

Lemma keeps_credentials_getAccountBalance a : keeps_credentials (getAccountBalance a).
Proof. unfold getAccountBalance. keeps_credentials_steps. Qed.

Lemma keeps_credentials_transferNFT id l1 l2 n : keeps_credentials (transferNFT id l1 l2 n).
Proof. unfold transferNFT. keeps_credentials_steps. Qed.

Lemma keeps_credentials_transferNFTWithBalanceCheck id l1 l2 n :
  keeps_credentials (transferNFTWithBalanceCheck id l1 l2 n).
Proof.
  unfold transferNFTWithBalanceCheck.
  pose proof keeps_credentials_getAccountBalance. pose proof keeps_credentials_transferNFT.
  pose proof keeps_credentials_associateTokenToAccount. keeps_credentials_steps.
Qed.

Lemma keeps_credentials_createCompleteNFTCollection cfg md b :
  keeps_credentials (createCompleteNFTCollection cfg md b).
Proof.
  unfold createCompleteNFTCollection.
  pose proof keeps_credentials_createAccount. pose proof keeps_credentials_createNFTToken.
  pose proof keeps_credentials_mintNFTs. keeps_credentials_steps.
Qed.

Lemma keeps_credentials_main_try info cids : keeps_credentials (main_try info cids).
Proof.
  unfold main_try, unbound.
  pose proof keeps_credentials_createAccount. pose proof keeps_credentials_createNFTToken.
  pose proof keeps_credentials_mintNFTs. pose proof keeps_credentials_getAccountBalance.
  pose proof keeps_credentials_transferNFTWithBalanceCheck. keeps_credentials_steps.
Qed.

(** X11. The operator credentials are read once, by the constructor, and
    never reassigned.  No method, [getClient] and [close] included, changes
    the [operatorId] or [operatorKey] field, whether it returns or throws,
    and every [setOperator] call of a run passes the two fields as they were
    when the run started.  In [main], every [setOperator] call therefore
    passes the OPERATOR_ID and OPERATOR_KEY of the environment, both set and
    not empty. *)
Theorem operator_credentials_fixed :
  keeps_credentials getClient /\
  keeps_credentials close /\
  (forall initialBalance, keeps_credentials (createAccount initialBalance)) /\
  (forall treasuryAccount tokenConfig,
      keeps_credentials (createNFTToken treasuryAccount tokenConfig)) /\
  (forall tokenData metadataArray, keeps_credentials (mintNFTs tokenData metadataArray)) /\
  (forall tokenId, keeps_credentials (getTokenBasicInfo tokenId)) /\
  (forall account tokenId, keeps_credentials (associateTokenToAccount account tokenId)) /\
  (forall account, keeps_credentials (getAccountBalance account)) /\
  (forall tokenId fromAccount toAccount serialNumber,
      keeps_credentials (transferNFT tokenId fromAccount toAccount serialNumber)) /\
  (forall tokenId fromAccount toAccount serialNumber,
      keeps_credentials
        (transferNFTWithBalanceCheck tokenId fromAccount toAccount serialNumber)) /\
  (forall tokenConfig metadataArray initialBalance,
      keeps_credentials
        (createCompleteNFTCollection tokenConfig metadataArray initialBalance)) /\
  (forall info cids env (s : state W) c operatorId operatorKey r,
      Ev (ClientSetOperator c operatorId operatorKey) r ∈ trace_of (main info cids env s) ->
      operatorId = env !! "OPERATOR_ID" /\ operatorKey = env !! "OPERATOR_KEY" /\
      falsy operatorId = false /\ falsy operatorKey = false).
Proof.
  split; [apply keeps_credentials_getClient | ].
  split; [apply keeps_credentials_close | ].
  split; [apply keeps_credentials_createAccount | ].
  split; [apply keeps_credentials_createNFTToken | ].
  split; [apply keeps_credentials_mintNFTs | ].
  split; [apply keeps_credentials_getTokenBasicInfo | ].
  split; [apply keeps_credentials_associateTokenToAccount | ].
  split; [apply keeps_credentials_getAccountBalance | ].
  split; [apply keeps_credentials_transferNFT | ].
  split; [apply keeps_credentials_transferNFTWithBalanceCheck | ].
  split; [apply keeps_credentials_createCompleteNFTCollection | ].
  intros info cids env s c operatorId operatorKey r.
  unfold main, bind at 1, constructor, bind, set_this, get_this. simpl.
  destruct (falsy (env !! "OPERATOR_KEY")) eqn:Hkey; simpl;
    [by intros ?%elem_of_nil | ].
  destruct (falsy (env !! "OPERATOR_ID")) eqn:Hid; simpl;
    [by intros ?%elem_of_nil | ].
  set (s1 := mkState _ _ _).
  assert (Hrest : keeps_credentials
                    (try_finally (try_catch (main_try info cids) (fun _ => ret None)) close)).
  { apply keeps_credentials_try_finally; [ | apply keeps_credentials_close].
    apply keeps_credentials_try_catch; [apply keeps_credentials_main_try | ].
    intros e. by apply keeps_credentials_quiet. }
  destruct (Hrest s1) as [_ Hall].
  destruct (try_finally _ close s1) as [[o s2] t2]. simpl in *.
  intros Hin. rewrite Forall_forall in Hall. apply Hall in Hin.
  unfold uses_credentials in Hin. simpl in Hin. destruct Hin as [-> ->]. done.
Qed.


(** ** What a method can throw *)

(** The last call of the run failed with [e]. *)
Definition failed_last (e : Error) (t : list event) : Prop :=
  exists pre ev, t = pre ++ [ev] /\ ev_error ev = Some e.


(** A computation that throws nothing but the error of its last SDK call, or
    an error of its own among [local]. *)
Definition throws_from {A} (local : Error -> Prop) (m : M A) : Prop :=
  forall s e,
    outcome_of (m s) = Throw e -> failed_last e (trace_of (m s)) \/ local e.



Lemma throws_from_weaken {A} (local local' : Error -> Prop) (m : M A) :
  (forall e, local e -> local' e) -> throws_from local m -> throws_from local' m.
Proof. intros Himp Hm s e He. destruct (Hm s e He); [by left | right; by apply Himp]. Qed.




























(** ** Who signs what *)







End Ledger.

(** ** [JSON.stringify] on small values *)

Example stringify_object :
  JSON.stringify (JObj [("name", JStr "diploma"); ("n", JNum 3); ("x", JUndefined)])
  = Some ("{" +:+ JSON.quote "name" +:+ ":" +:+ JSON.quote "diploma" +:+ ","
              +:+ JSON.quote "n" +:+ ":3}").
Proof. reflexivity. Qed.

Example stringify_undefined :
  JSON.stringify JUndefined = None /\ JSON.stringify (JArr [JUndefined]) = Some "[null]".
Proof. split; reflexivity. Qed.

(** * The service on the scripted ledger *)

(** ** The script stops at step 4 *)

(** C1.  With both credentials set and every SDK call succeeding, [main]
    creates the two accounts, creates the token, mints the collection and
    then stops: step 4 reads the unbound identifier [alice], the catch block
    takes over, and [main] closes the client and returns [undefined].  No
    balance is queried, nothing is transferred, no record is returned. *)
Theorem main_stops_at_step_4 :
  let run := main scripted_sdk scripted_now demo_collection demo_cids demo_env
               (mkState Service.blank [] all_succeed) in
  Forall ev_ok (trace_of run) /\
  outcome_of run = Ok None /\
  kinds (trace_of run)
  = setup_kinds Service.blank
    ++ createAccount_kinds ++ createAccount_kinds
    ++ createNFTToken_kinds
    ++ submit_kinds KTokenMint 1
    ++ [ (KClose, None) ].
Proof.
  split; [ | split].
  - vm_compute. repeat constructor.
  - vm_compute. reflexivity.
  - vm_compute. reflexivity.
Qed.

(** ** Runs that contradict the claims as they were stated *)


(** Against C5 as stated: two runs of [createAccount] in which the SDK gives
    the very same answers return records that differ in [balance], which is
    the argument of the caller and no answer of the SDK. *)
Lemma balance_is_the_argument :
  let s := demo_state all_succeed in
  let run_100 := createAccount scripted_sdk (Some 100) s in
  let run_200 := createAccount scripted_sdk (Some 200) s in
  map answer (trace_of run_100) = map answer (trace_of run_200) /\
  exists a_100 a_200,
    heap (state_of run_100) !! 0%nat = Some a_100 /\
    heap (state_of run_200) !! 0%nat = Some a_200 /\
    Account.balance a_100 = 100 /\
    Account.balance a_200 = 200.
Proof.
  split; [vm_compute; reflexivity | ].
  eexists _, _. repeat split; vm_compute; reflexivity.
Qed.


(** ** The theorems at work *)


(** The execution of the account creation, the sixth call, fails: the run
    ends there and throws the error of the network. *)
Lemma sdk_errors_rethrown_unchanged_witness :
  let run := createAccount scripted_sdk None (demo_state sixth_call_fails) in
  length (trace_of run) = 6%nat /\ outcome_of run = Throw network_error.
Proof.
  intros run. split; [reflexivity | ].
  destruct (sdk_errors_rethrown_unchanged scripted_sdk scripted_now)
    as (_ & _ & Hcreate & _).
  refine (proj2 (Hcreate None (demo_state sixth_call_fails)
                   (take 5 (trace_of run))
                   (Ev (Execute (AccountCreateTransaction (mkPublicKey "302a-4")
                                   (mkHbar 100)) (mkClient 0)) (inl network_error))
                   [] network_error _ _)).
  - vm_compute. reflexivity.
  - reflexivity.
Defined.


(** The record of a minted collection of three. *)
Lemma returned_fields_provenance_witness :
  let s := demo_state_accounts all_succeed in
  let run := mintNFTs scripted_sdk scripted_now demo_token demo_cids s in
  exists result c response receipt,
    outcome_of run = Ok result /\
    Ev (GetReceipt response c) (inr receipt) ∈ trace_of run /\
    MintResult.serials result = Receipt.serials receipt /\
    MintResult.count result = 3 /\
    MintResult.tokenId result = Token.tokenId demo_token.
Proof.
  intros s run.
  destruct (returned_fields_provenance scripted_sdk scripted_now s
              (state_of run) (trace_of run)) as (_ & _ & Hmint & _).
  destruct (Hmint demo_token demo_cids
              (MintResult.mk (Some [1; 2; 3]) (Some (mkStatus "SUCCESS"))
                 (Some (mkTokenId "0.0.2002")) 3 "2025-01-01T00:00:00.000Z"))
    as (c & response & receipt & Hin & Hresult).
  - vm_compute. reflexivity.
  - eexists _, c, response, receipt. split; [vm_compute; reflexivity | ].
    split; [exact Hin | ]. by injection Hresult as <- _.
Defined.

(** The first [getClient] constructs client 0, the second returns it. *)
Lemma single_client_handle_witness :
  let s := demo_state all_succeed in
  exists s',
    getClient scripted_sdk s = (Ok (mkClient 0), s', client_setup demo_service (mkClient 0)) /\
    getClient scripted_sdk s' = (Ok (mkClient 0), s', []).
Proof.
  intros s.
  destruct (single_client_handle scripted_sdk scripted_now s) as (_ & Hnew & _).
  specialize (Hnew eq_refl).
  destruct (getClient scripted_sdk s) as [[[c|e] s'] t] eqn:Hrun.
  - destruct Hnew as (-> & _ & Hsame).
    assert (c = mkClient 0) as -> by (vm_compute in Hrun; congruence).
    exists s'. split; [reflexivity | exact Hsame].
  - vm_compute in Hrun. discriminate.
Defined.

(** A token created under another name and symbol than the ledger reports. *)
Lemma createNFTToken_record_witness :
  let config := Some (TokenConfig.mk (Some "certificate") (Some "CERT") (Some 10)) in
  let run := createNFTToken scripted_sdk 0%nat config (demo_state_accounts all_succeed) in
  exists token,
    outcome_of run = Ok token /\
    executed (trace_of run) = [token_create_tx config demo_alice] /\
    Token.name token = "diploma" /\
    Token.treasuryAccount token = 0%nat.
Proof.
  intros config run.
  destruct (createNFTToken_record scripted_sdk scripted_now 0%nat config
              (demo_state_accounts all_succeed) demo_alice)
    as (c & response & receipt & info & Htrace & Hexecuted & Hqueries & Hout).
  - reflexivity.
  - vm_compute. repeat constructor.
  - eexists. split; [exact Hout | ]. split; [exact Hexecuted | ].
    assert (Token.name <$> (match outcome_of run with Ok t => Some t | _ => None end)
            = Some "diploma") as Hname by (vm_compute; reflexivity).
    subst run. rewrite Hout in Hname. simpl in Hname. injection Hname as Hname.
    split; [exact Hname | reflexivity].
Defined.

(** The constructor with both credentials, and with the key left empty. *)
Lemma constructor_needs_credentials_witness :
  outcome_of (constructor demo_env (mkState Service.blank [] all_succeed)) = Ok tt /\
  outcome_of (constructor (<["OPERATOR_KEY" := ""]> demo_env)
                (mkState Service.blank [] all_succeed))
  = Throw missing_credentials.
Proof.
  split.
  - destruct (constructor_needs_credentials demo_env (mkState Service.blank [] all_succeed))
      as (_ & _ & _ & Hset).
    apply (Hset "0.0.2" "302e"); [reflexivity | discriminate | reflexivity | discriminate].
  - destruct (constructor_needs_credentials (<["OPERATOR_KEY" := ""]> demo_env)
                (mkState Service.blank [] all_succeed))
      as (_ & _ & Hunset & _).
    apply Hunset. right. right. reflexivity.
Defined.




(** A collection of two NFTs on the ledger where every call succeeds: one
    key, one new account, which is the treasury, and three transactions. *)
Lemma collection_wiring_witness :
  let s := demo_state all_succeed in
  let metadataArray := Some [JStr "ipfs://bafy-1/metadata.json"; JObj [("grade", JNum 17)]] in
  let run := createCompleteNFTCollection scripted_sdk scripted_now None metadataArray
               (Some 20) s in
  exists result key holder mint,
    run = (Ok result, state_of run, trace_of run) /\
    generated_keys (trace_of run) = [key] /\
    heap s !! Collection.account result = None /\
    heap (state_of run) !! Collection.account result = Some holder /\
    Account.privateKey holder = key /\
    Token.treasuryAccount (Collection.tokenData result) = Collection.account result /\
    executed (trace_of run)
    = AccountCreateTransaction (publicKey key) (mkHbar 20)
      :: token_create_tx (Some TokenConfig.empty) holder
      :: mint /\
    signers (trace_of run) = [key; key] /\
    length mint = 1%nat.
Proof.
  intros s metadataArray run.
  assert (exists result, run = (Ok result, state_of run, trace_of run)) as [result Hrun].
  { eexists. vm_compute. reflexivity. }
  destruct (collection_wiring scripted_sdk scripted_now None metadataArray (Some 20) s
              (state_of run) result (trace_of run) Hrun)
    as (key & holder & mint & Hkey & Hfresh & Hholder & Hprivate & _ & _ & Htreasury
        & Hexecuted & Hsigners & buffers & _ & _ & Hmint).
  exists result, key, holder, mint.
  split; [exact Hrun | ]. split; [exact Hkey | ]. split; [exact Hfresh | ].
  split; [exact Hholder | ]. split; [exact Hprivate | ]. split; [exact Htreasury | ].
  split; [exact Hexecuted | ].
  rewrite Hsigners, Hmint. by split.
Defined.


(** An array whose second element is [undefined], on the ledger where every
    call succeeds: the client is set up, nothing is executed, and the
    TypeError of [Buffer.from] is thrown. *)
Lemma mintNFTs_rejects_undefined_witness :
  let s := demo_state_accounts all_succeed in
  let run := mintNFTs scripted_sdk scripted_now demo_token
               (JArr [JStr "ipfs://bafy-1/metadata.json"; JUndefined]) s in
  trace_of run = client_setup demo_service (mkClient 0) /\
  executed (trace_of run) = [] /\
  outcome_of run = Throw buffer_type_error.
Proof.
  intros s run.
  destruct (mintNFTs_rejects_undefined scripted_sdk scripted_now demo_token
              (JArr [JStr "ipfs://bafy-1/metadata.json"; JUndefined]) s)
    as (Htrace & _ & Hexecuted & Houtcome).
  - simpl. repeat constructor.
  - split; [ | split].
    + subst run. rewrite Htrace. vm_compute. reflexivity.
    + exact Hexecuted.
    + subst run. rewrite Houtcome. vm_compute. reflexivity.
Defined.

